(** * A shallow embedding of the file manager (src/index.js)

    The program is an interactive shell over Node's [fs], [path], [os],
    [crypto], [zlib] and [stream] modules.  One dispatch cycle is the
    function [handleCommand]; the only program state is the module-level
    variable [currentDir].  The embedding below models

    - the JavaScript string operations the parser uses ([Str]),
    - Node's POSIX [path] module ([Path]),
    - the SHA-256 digest and its hex rendering ([Sha256]),
    - a filesystem of regular files and directories ([Fs]),
    - readable streams, [pipe] and [pipeline] ([Stream]),
    - [Array.prototype.sort] ([Js]),
    - [isRootDir] and [handleCommand] themselves ([FileManager]).

    The functions of the program are transcribed from the source; the
    modules of the platform are modelled after their documented behaviour
    on a POSIX host.  Strings are UTF-8 byte strings.  What the host alone
    decides (the locale's collation, the Brotli codec, the data of [os])
    is a parameter of the program, the record [Platform]. *)

From Stdlib Require Import ZArith Ascii String Lia.
From Stdlib.Strings Require Import Byte.
From stdpp Require Import gmap strings list sorting.

Local Open Scope Z_scope.

(** [groups n l] cuts [l] into consecutive pieces of [n] elements (the
    last one may be shorter). *)
Fixpoint groupsFuel {A} (fuel n : nat) (l : list A) : list (list A) :=
  match fuel, l with
  | _, [] => []
  | O, _ => [l]
  | S fuel', _ => take n l :: groupsFuel fuel' n (drop n l)
  end.

Definition groups {A} (n : nat) (l : list A) : list (list A) :=
  groupsFuel (length l) n l.

(** ** JavaScript strings *)

Module Str.

Definition slash : ascii := "/"%char.

Definition eqc (a b : ascii) : bool := bool_decide (a = b).

(** [s.startsWith(p)] *)
Fixpoint startsWith (s p : string) : bool :=
  match p, s with
  | EmptyString, _ => true
  | String _ _, EmptyString => false
  | String b p', String a s' => eqc a b && startsWith s' p'
  end.

(** [s.split(sep)] for a one-character separator: never the empty list. *)
Fixpoint split (sep : ascii) (s : string) : list string :=
  match s with
  | EmptyString => [""]
  | String c s' =>
      if eqc c sep then "" :: split sep s'
      else match split sep s' with
           | [] => [String c ""]
           | w :: ws => String c w :: ws
           end
  end.

(** [l.join(sep)] *)
Fixpoint join (sep : string) (l : list string) : string :=
  match l with
  | [] => ""
  | [x] => x
  | x :: xs => x +:+ sep +:+ join sep xs
  end.

(** [s.trim()] removes white space and line terminators at both ends.
    Strings are UTF-8 byte strings: besides the ASCII ones, the code points
    U+00A0, U+1680, U+2000 to U+200A, U+2028, U+2029, U+202F, U+205F,
    U+3000 and U+FEFF are recognised by their encodings. *)
Definition whiteSpace : list (list nat) :=
  [ [9]; [10]; [11]; [12]; [13]; [32]; [194; 160]; [225; 154; 128];
    [226; 128; 128]; [226; 128; 129]; [226; 128; 130]; [226; 128; 131];
    [226; 128; 132]; [226; 128; 133]; [226; 128; 134]; [226; 128; 135];
    [226; 128; 136]; [226; 128; 137]; [226; 128; 138]; [226; 128; 168];
    [226; 128; 169]; [226; 128; 175]; [226; 129; 159]; [227; 128; 128];
    [239; 187; 191] ]%nat.

Fixpoint stripPrefix (p s : list ascii) : option (list ascii) :=
  match p, s with
  | [], _ => Some s
  | a :: p', b :: s' => if eqc a b then stripPrefix p' s' else None
  | _ :: _, [] => None
  end.

Fixpoint firstStrip (ps : list (list ascii)) (s : list ascii)
  : option (list ascii) :=
  match ps with
  | [] => None
  | p :: ps' =>
      match stripPrefix p s with
      | Some r => Some r
      | None => firstStrip ps' s
      end
  end.

Fixpoint stripAll (fuel : nat) (ps : list (list ascii)) (s : list ascii)
  : list ascii :=
  match fuel with
  | O => s
  | S fuel' =>
      match firstStrip ps s with
      | Some r => stripAll fuel' ps r
      | None => s
      end
  end.

Definition trim (s : string) : string :=
  let ws := map (map ascii_of_nat) whiteSpace in
  let l := String.list_ascii_of_string s in
  let l1 := stripAll (length l) ws l in
  let l2 := stripAll (length l1) (map (@rev ascii) ws) (rev l1) in
  String.string_of_list_ascii (rev l2).

(** [l.filter(Boolean)] on an array of strings keeps the non-empty ones. *)
Definition truthy (s : string) : bool :=
  match s with EmptyString => false | _ => true end.

Definition chars : string -> list ascii := String.list_ascii_of_string.
Definition of_chars : list ascii -> string := String.string_of_list_ascii.

End Str.

(** ** Node's [path] module, POSIX flavour *)

Module Path.
Import Str.

Definition isAbsolute (p : string) : bool :=
  match p with String c _ => eqc c slash | EmptyString => false end.

(** [normalizeString]: the segments between separators are pushed on a
    stack; empty segments and [.] are dropped, [..] removes the segment
    on top unless the stack is empty or its top is [..] itself, in which
    case [..] is kept only when [allowAboveRoot].  The stack is kept
    reversed in [acc]. *)
Fixpoint normalizeSegments (allowAboveRoot : bool)
         (acc segs : list string) : list string :=
  match segs with
  | [] => rev acc
  | s :: rest =>
      if bool_decide (s = "") || bool_decide (s = ".") then
        normalizeSegments allowAboveRoot acc rest
      else if bool_decide (s = "..") then
        match acc with
        | top :: acc' =>
            if bool_decide (top = "..") then
              normalizeSegments allowAboveRoot
                (if allowAboveRoot then ".." :: acc else acc) rest
            else normalizeSegments allowAboveRoot acc' rest
        | [] =>
            normalizeSegments allowAboveRoot
              (if allowAboveRoot then [".."] else []) rest
        end
      else normalizeSegments allowAboveRoot (s :: acc) rest
  end.

Definition normalizeString (p : string) (allowAboveRoot : bool) : string :=
  join "/" (normalizeSegments allowAboveRoot [] (split slash p)).

(** [path.resolve(a, b)]: the arguments are visited from the right, then
    the process working directory, until an absolute one is met. *)
Definition resolveStep (acc : string * bool) (p : string) : string * bool :=
  if snd acc then acc
  else if truthy p then (p +:+ "/" +:+ fst acc, isAbsolute p)
  else acc.

Definition resolve (cwd a b : string) : string :=
  let '(resolvedPath, resolvedAbsolute) :=
    resolveStep (resolveStep (resolveStep ("", false) b) a) cwd in
  let n := normalizeString resolvedPath (negb resolvedAbsolute) in
  if resolvedAbsolute then "/" +:+ n
  else if truthy n then n else ".".

Definition endsWithSlash (p : string) : bool :=
  match rev (chars p) with c :: _ => eqc c slash | [] => false end.

(** [path.normalize(p)] *)
Definition normalize (p : string) : string :=
  if negb (truthy p) then "."
  else
    let n := normalizeString p (negb (isAbsolute p)) in
    if negb (truthy n) then
      if isAbsolute p then "/"
      else if endsWithSlash p then "./" else "."
    else
      let n' := if endsWithSlash p then n +:+ "/" else n in
      if isAbsolute p then "/" +:+ n' else n'.

(** [path.join(a, b)] *)
Definition join2 (a b : string) : string :=
  match truthy a, truthy b with
  | false, false => "."
  | true, false => normalize a
  | false, true => normalize b
  | true, true => normalize (a +:+ "/" +:+ b)
  end.

(** The backward scan shared by [dirname] and [parse]: over the
    characters at the indices [start .. length-1], read from the end,
    trailing separators are skipped, then the last segment; the result is
    the reversed text before the separator that precedes that segment
    (that separator excluded), or [None] when no such separator exists. *)
Fixpoint skipSeparators (r : list ascii) : list ascii :=
  match r with
  | c :: r' => if eqc c slash then skipSeparators r' else r
  | [] => []
  end.

Fixpoint skipSegment (r : list ascii) : option (list ascii) :=
  match r with
  | c :: r' => if eqc c slash then Some r' else skipSegment r'
  | [] => None
  end.

Definition beforeLastSegment (r : list ascii) : option (list ascii) :=
  skipSegment (skipSeparators r).

(** [path.dirname(p)] *)
Definition dirname (p : string) : string :=
  match p with
  | EmptyString => "."
  | String c0 rest =>
      let hasRoot := eqc c0 slash in
      match beforeLastSegment (rev (chars rest)) with
      | None => if hasRoot then "/" else "."
      | Some before =>
          (* [end] is the index of the separator: 1 + length before *)
          if hasRoot && bool_decide (before = []) then "//"
          else String c0 (of_chars (rev before))
      end
  end.

(** The two fields of [path.parse(p)] that the program reads. *)
Record parsed := { root : string; dir : string }.

Definition parse (p : string) : parsed :=
  match p with
  | EmptyString => {| root := ""; dir := "" |}
  | String c0 rest =>
      if eqc c0 slash then
        (* the scan stops at index 1 *)
        match beforeLastSegment (rev (chars rest)) with
        | Some before =>
            {| root := "/"; dir := String c0 (of_chars (rev before)) |}
        | None => {| root := "/"; dir := "/" |}
        end
      else
        (* the scan runs down to index 0 *)
        match beforeLastSegment (rev (chars p)) with
        | Some before => {| root := ""; dir := of_chars (rev before) |}
        | None => {| root := ""; dir := "" |}
        end
  end.

End Path.

(** ** SHA-256 (FIPS 180-4), the digest behind [crypto.createHash('sha256')]

    Words are 32-bit integers in [Z]; every sum is reduced modulo 2^32. *)

Module Sha256.

Definition wrap (x : Z) : Z := x mod 2 ^ 32.
Definition add32 (x y : Z) : Z := wrap (x + y).
Definition rotr (n x : Z) : Z :=
  Z.lor (Z.shiftr x n) (wrap (Z.shiftl x (32 - n))).
Definition not32 (x : Z) : Z := Z.lxor x 0xffffffff.

Definition ch (x y z : Z) : Z := Z.lxor (Z.land x y) (Z.land (not32 x) z).
Definition maj (x y z : Z) : Z :=
  Z.lxor (Z.lxor (Z.land x y) (Z.land x z)) (Z.land y z).
Definition bigSigma0 (x : Z) : Z :=
  Z.lxor (Z.lxor (rotr 2 x) (rotr 13 x)) (rotr 22 x).
Definition bigSigma1 (x : Z) : Z :=
  Z.lxor (Z.lxor (rotr 6 x) (rotr 11 x)) (rotr 25 x).
Definition smallSigma0 (x : Z) : Z :=
  Z.lxor (Z.lxor (rotr 7 x) (rotr 18 x)) (Z.shiftr x 3).
Definition smallSigma1 (x : Z) : Z :=
  Z.lxor (Z.lxor (rotr 17 x) (rotr 19 x)) (Z.shiftr x 10).

(** The constants are derived as the standard defines them, from the
    first primes: the round constants are the first 32 bits of the
    fractional parts of the cube roots of the first 64 primes, the initial
    chaining value those of the square roots of the first 8 primes. *)
Definition isPrime (n : nat) : bool :=
  (1 <? n)%nat
  && forallb (fun d => negb (n mod d =? 0)%nat) (seq 2 (n - 2)).

Definition firstPrimes (count : nat) : list Z :=
  map Z.of_nat (take count (List.filter isPrime (seq 2 310))).

(** The integer cube root, bit by bit from the top. *)
Fixpoint cubeRootBits (bits : nat) (n root : Z) : Z :=
  match bits with
  | O => root
  | S bits' =>
      let candidate := root + 2 ^ Z.of_nat bits' in
      cubeRootBits bits' n
        (if candidate * candidate * candidate <=? n then candidate else root)
  end.

Definition cubeRoot (n : Z) : Z := cubeRootBits 40 n 0.

Definition roundConstants : list Z :=
  Eval vm_compute in
    map (fun p => wrap (cubeRoot (p * 2 ^ 96))) (firstPrimes 64).

(** The chaining value: the eight working words a..h. *)
Record state := State { sa : Z; sb : Z; sc : Z; sd : Z;
                        se : Z; sf : Z; sg : Z; sh : Z }.

Definition initial : state :=
  Eval vm_compute in
    match map (fun p => wrap (Z.sqrt (p * 2 ^ 64))) (firstPrimes 8) with
    | [a; b; c; d; e; f; g; h] => State a b c d e f g h
    | _ => State 0 0 0 0 0 0 0 0
    end.

Definition byteZ (b : byte) : Z := Z.of_N (Byte.to_N b).

Definition bigEndian (width : nat) (x : Z) : list Z :=
  map (fun i => Z.shiftr x (8 * Z.of_nat i) mod 256) (rev (seq 0 width)).

(** Padding: the bit 1, zeros up to 56 modulo 64 bytes, then the bit
    length of the message as a 64-bit big-endian integer. *)
Definition pad (msg : list byte) : list Z :=
  let len := Z.of_nat (length msg) in
  let zeros := Z.to_nat ((55 - len) mod 64) in
  map byteZ msg ++ 0x80 :: repeat 0 zeros ++ bigEndian 8 (8 * len).

Definition wordOfBytes (bs : list Z) : Z :=
  fold_left (fun acc b => acc * 256 + b) bs 0.

(** The message schedule, newest word first. *)
Fixpoint extendSchedule (n : nat) (w : list Z) : list Z :=
  match n with
  | O => w
  | S n' =>
      let next :=
        add32 (add32 (smallSigma1 (nth 1 w 0)) (nth 6 w 0))
              (add32 (smallSigma0 (nth 14 w 0)) (nth 15 w 0)) in
      extendSchedule n' (next :: w)
  end.

Definition schedule (block : list Z) : list Z :=
  rev (extendSchedule 48 (rev (map wordOfBytes (groups 4 block)))).

Definition round (s : state) (kw : Z * Z) : state :=
  let t1 := add32 (add32 (add32 (sh s) (bigSigma1 (se s)))
                         (add32 (ch (se s) (sf s) (sg s)) (fst kw)))
                  (snd kw) in
  let t2 := add32 (bigSigma0 (sa s)) (maj (sa s) (sb s) (sc s)) in
  State (add32 t1 t2) (sa s) (sb s) (sc s)
        (add32 (sd s) t1) (se s) (sf s) (sg s).

Definition compress (h : state) (block : list Z) : state :=
  let s := fold_left round (zip roundConstants (schedule block)) h in
  State (add32 (sa h) (sa s)) (add32 (sb h) (sb s))
        (add32 (sc h) (sc s)) (add32 (sd h) (sd s))
        (add32 (se h) (se s)) (add32 (sf h) (sf s))
        (add32 (sg h) (sg s)) (add32 (sh h) (sh s)).

Definition digestWords (msg : list byte) : list Z :=
  let s := fold_left compress (groups 64 (pad msg)) initial in
  [sa s; sb s; sc s; sd s; se s; sf s; sg s; sh s].

(** The 32 digest bytes. *)
Definition digest (msg : list byte) : list Z :=
  concat (map (bigEndian 4) (digestWords msg)).

(** [digest('hex')]: two lowercase hexadecimal digits per byte. *)
Definition hexDigit (n : Z) : ascii :=
  nth (Z.to_nat n) (Str.chars "0123456789abcdef") "0"%char.

Definition hexOfByte (b : Z) : string :=
  String (hexDigit (b / 16)) (String (hexDigit (b mod 16)) "").

Definition hex (bs : list Z) : string :=
  foldr (fun b acc => hexOfByte b +:+ acc) "" bs.

Definition digestHex (msg : list byte) : string := hex (digest msg).

End Sha256.

Definition bytes (s : string) : list byte := String.list_byte_of_string s.

(** ** The filesystem behind [fs] and [fs.promises]

    A filesystem is a finite map from canonical absolute paths to nodes,
    together with the working directory of the process (against which the
    operating system resolves relative paths).  Regular files carry their
    bytes and the caller's read and write permission; directories carry
    the caller's permission to add and remove entries.  Symbolic links and
    hard links are not modelled. *)

Module Fs.
Import Str.

Inductive errno :=
  ENOENT | ENOTDIR | EISDIR | EACCES | ENXIO | ENOTEMPTY | EINVAL | EBUSY.

Inductive node :=
| File (content : list byte) (readable writable : bool)
| Dir (writable : bool)
| Socket.

Record t := Make { cwd : string; nodes : gmap string node }.

Definition isDirectory (n : node) : bool :=
  match n with Dir _ => true | _ => false end.
Definition isFile (n : node) : bool :=
  match n with File _ _ _ => true | _ => false end.

(** The key under which the operating system finds the path [p]. *)
Definition key (fs : t) (p : string) : string := Path.resolve (cwd fs) p "".

Definition withNodes (fs : t) (m : gmap string node) : t :=
  Make (cwd fs) m.

(** Path lookup.  A trailing separator demands a directory. *)
Definition find (fs : t) (p : string) : errno + node :=
  if negb (truthy p) then inl ENOENT
  else match nodes fs !! key fs p with
       | None => inl ENOENT
       | Some n =>
           if Path.endsWithSlash p && negb (isDirectory n)
           then inl ENOTDIR else inr n
       end.

(** [fs.stat] *)
Definition stat (fs : t) (p : string) : errno + node := find fs p.

Definition basename (k : string) : string :=
  default "" (last (split slash k)).

Definition entryOf (d : string) (kn : string * node)
  : option (string * node) :=
  if bool_decide (kn.1 <> d) && bool_decide (Path.dirname kn.1 = d)
  then Some (basename kn.1, kn.2) else None.

(** [fs.readdir(p, { withFileTypes: true })]: names and types of the
    entries of a directory, in the order the system yields them. *)
Definition readdir (fs : t) (p : string) : errno + list (string * node) :=
  match find fs p with
  | inl e => inl e
  | inr (Dir _) => inr (omap (entryOf (key fs p)) (map_to_list (nodes fs)))
  | inr _ => inl ENOTDIR
  end.

(** Opening for reading, as [fs.createReadStream] does; the result is
    the content the stream will deliver. *)
Definition openRead (fs : t) (p : string) : errno + list byte :=
  match find fs p with
  | inl e => inl e
  | inr (File c r _) => if r then inr c else inl EACCES
  | inr (Dir _) => inl EISDIR
  | inr Socket => inl ENXIO
  end.

(** Opening with flag ['w'], as [fs.createWriteStream] and
    [fs.writeFile] do: the file is created if it is missing and truncated
    if it exists. *)
Definition openWrite (fs : t) (p : string) : errno + t :=
  if negb (truthy p) then inl ENOENT
  else
    let k := key fs p in
    match nodes fs !! k with
    | Some (File _ r w) =>
        if Path.endsWithSlash p then inl ENOTDIR
        else if w then inr (withNodes fs (<[k := File [] r w]> (nodes fs)))
        else inl EACCES
    | Some (Dir _) => inl EISDIR
    | Some Socket => inl ENXIO
    | None =>
        if Path.endsWithSlash p then inl EISDIR
        else match nodes fs !! Path.dirname k with
             | Some (Dir true) =>
                 inr (withNodes fs (<[k := File [] true true]> (nodes fs)))
             | Some (Dir false) => inl EACCES
             | Some _ => inl ENOTDIR
             | None => inl ENOENT
             end
    end.

(** Writing [data] at the end of the file opened at [p]. *)
Definition append (fs : t) (p : string) (data : list byte) : t :=
  withNodes fs
    (alter (fun n => match n with
                     | File c r w => File (c ++ data) r w
                     | _ => n
                     end) (key fs p) (nodes fs)).

(** [fs.writeFile(p, data)] *)
Definition writeFile (fs : t) (p : string) (data : list byte) : errno + t :=
  match openWrite fs p with
  | inl e => inl e
  | inr fs' => inr (append fs' p data)
  end.

(** [fs.unlink] *)
Definition unlink (fs : t) (p : string) : errno + t :=
  match find fs p with
  | inl e => inl e
  | inr (Dir _) => inl EISDIR
  | inr _ =>
      let k := key fs p in
      match nodes fs !! Path.dirname k with
      | Some (Dir true) => inr (withNodes fs (delete k (nodes fs)))
      | Some (Dir false) => inl EACCES
      | Some _ => inl ENOTDIR
      | None => inl ENOENT
      end
  end.

Definition parentWritable (fs : t) (k : string) : errno + unit :=
  match nodes fs !! Path.dirname k with
  | Some (Dir true) => inr ()
  | Some (Dir false) => inl EACCES
  | Some _ => inl ENOTDIR
  | None => inl ENOENT
  end.

Definition under (d k : string) : bool := startsWith k (d +:+ "/").

Definition hasEntries (fs : t) (d : string) : bool :=
  bool_decide (omap (entryOf d) (map_to_list (nodes fs)) <> []).

(** Moving the subtree at [old] to [new]. *)
Definition rekey (old new k : string) : string :=
  if bool_decide (k = old) then new
  else if under old k
       then new +:+ of_chars (drop (String.length old) (chars k))
       else k.

Definition moveTree (old new : string) (m : gmap string node)
  : gmap string node :=
  list_to_map ((fun kn => (rekey old new kn.1, kn.2)) <$> map_to_list m).

(** [fs.rename] *)
Definition rename (fs : t) (old new : string) : errno + t :=
  match find fs old with
  | inl e => inl e
  | inr n =>
      if negb (truthy new) then inl ENOENT
      else
        let ko := key fs old in
        let kn := key fs new in
        if bool_decide (ko = "/") || bool_decide (kn = "/") then inl EBUSY
        else if bool_decide (ko = kn) then inr fs
        else if under ko kn then inl EINVAL
        else
          match parentWritable fs ko, parentWritable fs kn with
          | inl e, _ | _, inl e => inl e
          | inr _, inr _ =>
              let move :=
                inr (withNodes fs (moveTree ko kn (delete kn (nodes fs)))) in
              match n, nodes fs !! kn with
              | _, None =>
                  if Path.endsWithSlash new && negb (isDirectory n)
                  then inl ENOTDIR else move
              | Dir _, Some (Dir _) =>
                  if hasEntries fs kn then inl ENOTEMPTY else move
              | Dir _, Some _ => inl ENOTDIR
              | _, Some (Dir _) => inl EISDIR
              | _, Some _ =>
                  if Path.endsWithSlash new then inl ENOTDIR else move
              end
          end
  end.

End Fs.

(** ** Thrown values *)

Inductive exn :=
| JsError (message : string)
| SystemError (code : Fs.errno) (syscall path : string)
| ReferenceError (name : string)
| CodecError.

Definition errnoText (c : Fs.errno) : string :=
  match c with
  | Fs.ENOENT => "ENOENT: no such file or directory"
  | Fs.ENOTDIR => "ENOTDIR: not a directory"
  | Fs.EISDIR => "EISDIR: illegal operation on a directory"
  | Fs.EACCES => "EACCES: permission denied"
  | Fs.ENXIO => "ENXIO: no such device or address"
  | Fs.ENOTEMPTY => "ENOTEMPTY: directory not empty"
  | Fs.EINVAL => "EINVAL: invalid argument"
  | Fs.EBUSY => "EBUSY: resource busy or locked"
  end.

(** [err.message] *)
Definition message (e : exn) : string :=
  match e with
  | JsError m => m
  | SystemError c syscall path =>
      errnoText c +:+ ", " +:+ syscall +:+ " '" +:+ path +:+ "'"
  | ReferenceError x => x +:+ " is not defined"
  | CodecError => "Decompression failed"
  end.

(** ** Streams: [fs.createReadStream], [pipe], [pipeline], [crypto.Hash] *)

Module Stream.

(** A file stream delivers its content in chunks of at most 64 KiB. *)
Definition highWaterMark : nat := Z.to_nat 65536.

Inductive event :=
| Data (chunk : list byte)
| End
| Error (e : exn).

(** The events of [fs.createReadStream(p)] once it flows. *)
Definition readEvents (fs : Fs.t) (p : string) : list event :=
  match Fs.openRead fs p with
  | inl c => [Error (SystemError c "open" p)]
  | inr content => map Data (groups highWaterMark content) ++ [End]
  end.

Fixpoint failure (evs : list event) : option exn :=
  match evs with
  | [] => None
  | Error e :: _ => Some e
  | _ :: evs' => failure evs'
  end.

(** The hash object of [crypto.createHash('sha256')], a writable stream.
    [finished] is what the listener of its ['finish'] event computes,
    [hash.digest('hex')]; the event is emitted once, when the writable
    side is ended for the first time. *)
Record hasher := Hasher {
  absorbed : list byte;
  ended : bool;
  finished : option string
}.

Definition createHash : hasher := Hasher [] false None.

Inductive call := Write (chunk : list byte) | EndCall.

Definition apply (h : hasher) (c : call) : hasher :=
  match c with
  | Write chunk =>
      if ended h then h
      else Hasher (absorbed h ++ chunk) false (finished h)
  | EndCall =>
      if ended h then h
      else Hasher (absorbed h) true (Some (Sha256.digestHex (absorbed h)))
  end.

(** [src.pipe(dest)] adds one ['data'] listener (calling [dest.write])
    and one ['end'] listener (calling [dest.end]) to the source, each time
    it is called, also for a destination that is piped to already.  With
    [pipes] registrations towards the same destination an event leads to
    so many calls. *)
Definition deliver (pipes : nat) (ev : event) : list call :=
  match ev with
  | Data chunk => replicate pipes (Write chunk)
  | End => replicate pipes EndCall
  | Error _ => []
  end.

Definition pipeToHash (pipes : nat) (evs : list event) : hasher :=
  fold_left apply (concat (map (deliver pipes) evs)) createHash.

(** A transform stage maps the bytes it receives to the bytes it emits,
    and says whether it failed on them. *)
Definition transform := list byte -> list byte * option exn.

Definition passThrough : transform := fun data => (data, None).

(** [pipeline(createReadStream(src), stage, createWriteStream(dst), cb)]:
    the filesystem it leaves and the error handed to the callback.  Both
    files are opened when the streams are constructed, whatever happens
    to the other one; the sink is truncated before the source is read. *)
Definition pipeline (fs : Fs.t) (src : string) (stage : transform)
           (dst : string) : Fs.t * option exn :=
  match Fs.openRead fs src, Fs.openWrite fs dst with
  | inl c, inr fs' => (fs', Some (SystemError c "open" src))
  | inl c, inl _ => (fs, Some (SystemError c "open" src))
  | inr _, inl c => (fs, Some (SystemError c "open" dst))
  | inr _, inr fs' =>
      let content := match Fs.openRead fs' src with
                     | inr c => c
                     | inl _ => []
                     end in
      let '(out, err) := stage content in
      (Fs.append fs' dst out, err)
  end.

End Stream.

(** ** [Array.prototype.sort] *)

Module Js.
Section Sort.
Context {A : Type} (compareFn : A -> A -> Z).

(** The sort is stable: an element stays before the later elements it
    does not compare greater than. *)
Fixpoint insertSorted (x : A) (l : list A) : list A :=
  match l with
  | [] => [x]
  | y :: l' =>
      if compareFn x y <=? 0 then x :: l else y :: insertSorted x l'
  end.

Definition sort (l : list A) : list A := foldr insertSorted [] l.
End Sort.
End Js.

(** ** The program: src/index.js *)

Module FileManager.
Import Str.

(** What the host supplies through [process], [os], [zlib] and the
    locale.  [ghz speed] stands for [(speed / 1000).toFixed(2)], a
    rendering of a double that is not modelled. *)
Record Platform := {
  argv : list string;
  homedir : string;
  EOL : string;
  cpus : list (string * Z);
  ghz : Z -> string;
  userName : string;
  arch : string;
  localeCompare : string -> string -> Z;
  brotliCompress : list byte -> list byte;
  brotliDecompress : list byte -> list byte * bool
}.

(** The module-level variable [currentDir], and the filesystem. *)
Record world := World { currentDir : string; fs : Fs.t }.

Definition object := list (string * string).

Inductive output :=
| Log (line : string)
| ErrorLine (line : string)
| Table (rows : list object)
| Stdout (chunk : list byte)
| Prompt.

(** How a dispatch cycle leaves the process.
    - [AwaitingInput]: [showCurrentDir] ran and the prompt is displayed.
    - [Exited code]: [process.exit(code)] was called.
    - [Crashed e]: [e] was thrown where no [try] encloses it; nothing
      listens for ['uncaughtException'], so the process terminates.
    - [Stalled rejection]: the promise that [handleCommand] awaits is
      never settled, so the cycle prints nothing more, neither an error
      line nor the prompt; [rejection] is the reason of a promise that
      was rejected without a handler, if there is one (from Node 15 on
      such a rejection terminates the process). *)
Inductive status :=
| AwaitingInput
| Exited (code : Z)
| Crashed (e : exn)
| Stalled (rejection : option exn).

Record outcome := Outcome {
  final : world;
  console : list output;
  state : status
}.

(** How the body of the [try] block ends.
    - [Break]: the case reached its [break].
    - [Detached fs' err]: the case reached its [break] with a pipeline
      still running, which leaves the filesystem [fs'] and calls its
      callback with [err].
    - [Throw e]: an exception thrown inside [try], or an awaited promise
      rejected with [e].
    - [Exit code]: [process.exit(code)].
    - [Uncaught e]: an ['error'] event [e] on a stream without a listener
      for it.
    - [Unsettled rejection]: the awaited promise is never settled;
      [rejection] is the reason of a promise rejected without a handler,
      if there is one. *)
Inductive completion :=
| Break
| Detached (fs' : Fs.t) (err : option exn)
| Throw (e : exn)
| Exit (code : Z)
| Uncaught (e : exn)
| Unsettled (rejection : option exn).

Record result := Result {
  after : world;
  printed : list output;
  how : completion
}.

Inductive command :=
| Up | Cd | Ls | Cat | Add | Rn | Cp | Mv | Rm | Os | Hash
| Compress | Decompress | DotExit | Default.

#[global] Instance command_eq_dec : EqDecision command.
Proof. solve_decision. Defined.

(** The [case] labels of the [switch]. *)
Definition labels : list (string * command) :=
  [ ("up", Up); ("cd", Cd); ("ls", Ls); ("cat", Cat); ("add", Add);
    ("rn", Rn); ("cp", Cp); ("mv", Mv); ("rm", Rm); ("os", Os);
    ("hash", Hash); ("compress", Compress); ("decompress", Decompress);
    (".exit", DotExit) ].

Fixpoint assoc {B} (k : string) (l : list (string * B)) : option B :=
  match l with
  | [] => None
  | (k', v) :: l' => if bool_decide (k = k') then Some v else assoc k l'
  end.

Definition select (name : option string) : command :=
  match name with
  | Some n => default Default (assoc n labels)
  | None => Default
  end.

(** [const [command, ...args] = input.trim().split(' ').filter(Boolean)] *)
Definition parseInput (input : string) : option string * list string :=
  match List.filter truthy (split " "%char (trim input)) with
  | [] => (None, [])
  | c :: args => (Some c, args)
  end.

(** [args[i]] when it is truthy; [None] where the source throws on
    [!args[i]]. *)
Definition given (args : list string) (i : nat) : option string :=
  match args !! i with
  | Some a => if truthy a then Some a else None
  | None => None
  end.

Definition isRootDir (dir : string) : bool :=
  let parsed := Path.parse dir in
  bool_decide (Path.root parsed = dir)
  || bool_decide (Path.dir parsed = Path.root parsed).

(** [JSON.stringify] of a string. *)
Definition jsonChar (c : ascii) : string :=
  let n := Z.of_nat (nat_of_ascii c) in
  let backslash := "092"%char in
  if n =? 34 then String backslash (String c "")
  else if n =? 92 then String backslash (String c "")
  else if n =? 8 then String backslash "b"
  else if n =? 9 then String backslash "t"
  else if n =? 10 then String backslash "n"
  else if n =? 12 then String backslash "f"
  else if n =? 13 then String backslash "r"
  else if n <? 32 then String backslash ("u00" +:+ Sha256.hexOfByte n)
  else String c "".

Definition jsonString (s : string) : string :=
  let quote := "034"%char in
  String quote
    (foldr (fun c acc => jsonChar c +:+ acc) (String quote "") (chars s)).

Section Program.
Context (P : Platform).

(** [args.find(arg => arg.startsWith('--username='))?.split('=')[1]
    || 'User'] over [process.argv.slice(2)] *)
Definition username : string :=
  match List.find (fun a => startsWith a "--username=") (drop 2 (argv P))
  with
  | Some a =>
      match split "="%char a !! 1%nat with
      | Some v => if truthy v then v else "User"
      | None => "User"
      end
  | None => "User"
  end.

Definition farewell : string :=
  "Thank you for using File Manager, " +:+ username +:+ ", goodbye!".

Definition showCurrentDir (w : world) : list output :=
  [Log ("You are currently in " +:+ currentDir w); Prompt].

(** The start of the program: [currentDir] is the home directory, and the
    welcome line and the current directory are shown. *)
Definition start (disk : Fs.t) : world := World (homedir P) disk.

Definition welcome (disk : Fs.t) : list output :=
  Log ("Welcome to the File Manager, " +:+ username +:+ "!")
  :: showCurrentDir (start disk).

Definition invalidInput : exn := JsError "Invalid input".
Definition operationFailed : exn := JsError "Operation failed".

(** Reading an identifier that no declaration of the module and no
    global binds. *)
Definition readUndeclared (x : string) : exn + Z := inl (ReferenceError x).

(** [!isRootDir(newDir) |д| newDir.startsWith(os.homedir())]: two
    bitwise ors, evaluated from the left, of a boolean, the identifier
    [д] and a boolean.  Nothing declares [д]: reading it throws once the
    first operand has been computed, and the third is never reached. *)
Definition cdCondition (newDir : string) : exn + bool :=
  let first := Z.b2z (negb (isRootDir newDir)) in
  match readUndeclared "д" with
  | inl e => inl e
  | inr second =>
      let third := Z.b2z (startsWith newDir (homedir P)) in
      inr (negb (Z.lor (Z.lor first second) third =? 0))
  end.

Record entry := Entry { name : string; type : string }.

Definition row (e : entry) : object :=
  [("name", name e); ("type", type e)].

Definition listing (items : list (string * Fs.node)) : list entry :=
  let dirs :=
    map (fun item => Entry item.1 "directory")
        (List.filter (fun item => Fs.isDirectory item.2) items) in
  let files :=
    map (fun item => Entry item.1 "file")
        (List.filter (fun item => Fs.isFile item.2) items) in
  Js.sort (fun a b => localeCompare P (name a) (name b)) (dirs ++ files).

Definition cpuRow (cpu : string * Z) : object :=
  [("model", cpu.1); ("speed", ghz P cpu.2 +:+ " GHz")].

Definition compressor : Stream.transform :=
  fun data => (brotliCompress P data, None).

Definition decompressor : Stream.transform :=
  fun data =>
    let '(out, ok) := brotliDecompress P data in
    (out, if ok then None else Some CodecError).

Definition stdoutWrites (evs : list Stream.event) : list output :=
  omap (fun ev => match ev with
                  | Stream.Data chunk => Some (Stdout chunk)
                  | _ => None
                  end) evs.

(** The body of the [try] block. *)
Definition run (w : world) (c : command) (args : list string) : result :=
  let cur := currentDir w in
  let cwd := Fs.cwd (fs w) in
  let throw e := Result w [] (Throw e) in
  match c with
  | Up =>
      if negb (isRootDir cur)
      then Result (World (Path.dirname cur) (fs w)) [] Break
      else Result w [] Break
  | Cd =>
      match given args 0 with
      | None => throw invalidInput
      | Some a0 =>
          let newDir := Path.resolve cwd cur a0 in
          match Fs.stat (fs w) newDir with
          | inl code => throw (SystemError code "stat" newDir)
          | inr stats =>
              if negb (Fs.isDirectory stats) then throw invalidInput
              else match cdCondition newDir with
                   | inl e => throw e
                   | inr true => Result (World newDir (fs w)) [] Break
                   | inr false => Result w [] Break
                   end
          end
      end
  | Ls =>
      match Fs.readdir (fs w) cur with
      | inl code => throw (SystemError code "scandir" cur)
      | inr items => Result w [Table (map row (listing items))] Break
      end
  | Cat =>
      match given args 0 with
      | None => throw invalidInput
      | Some a0 =>
          let readPath := Path.resolve cwd cur a0 in
          let evs := Stream.readEvents (fs w) readPath in
          match Stream.failure evs with
          | Some e => Result w [] (Uncaught e)
          | None => Result w (stdoutWrites evs ++ [Log ""]) Break
          end
      end
  | Add =>
      match given args 0 with
      | None => throw invalidInput
      | Some a0 =>
          let target := Path.join2 cur a0 in
          match Fs.writeFile (fs w) target [] with
          | inl code => throw (SystemError code "open" target)
          | inr fs' => Result (World cur fs') [] Break
          end
      end
  | Rn =>
      match given args 0, given args 1 with
      | Some a0, Some a1 =>
          let oldPath := Path.resolve cwd cur a0 in
          let newPath := Path.join2 (Path.dirname oldPath) a1 in
          match Fs.rename (fs w) oldPath newPath with
          | inl code => throw (SystemError code "rename" oldPath)
          | inr fs' => Result (World cur fs') [] Break
          end
      | _, _ => throw invalidInput
      end
  | Cp =>
      match given args 0, given args 1 with
      | Some a0, Some a1 =>
          let srcPath := Path.resolve cwd cur a0 in
          let destPath := Path.resolve cwd cur a1 in
          let '(fs', err) :=
            Stream.pipeline (fs w) srcPath Stream.passThrough destPath in
          Result w [] (Detached fs' err)
      | _, _ => throw invalidInput
      end
  | Mv =>
      match given args 0, given args 1 with
      | Some a0, Some a1 =>
          let srcMvPath := Path.resolve cwd cur a0 in
          let destMvPath := Path.resolve cwd cur a1 in
          let '(fs', err) :=
            Stream.pipeline (fs w) srcMvPath Stream.passThrough
                            destMvPath in
          match err with
          | Some _ => Result (World cur fs') [] (Throw operationFailed)
          | None =>
              match Fs.unlink fs' srcMvPath with
              | inl code =>
                  Result (World cur fs') []
                         (Unsettled
                            (Some (SystemError code "unlink" srcMvPath)))
              | inr fs'' => Result (World cur fs'') [] Break
              end
          end
      | _, _ => throw invalidInput
      end
  | Rm =>
      match given args 0 with
      | None => throw invalidInput
      | Some a0 =>
          let target := Path.resolve cwd cur a0 in
          match Fs.unlink (fs w) target with
          | inl code => throw (SystemError code "unlink" target)
          | inr fs' => Result (World cur fs') [] Break
          end
      end
  | Os =>
      match given args 0 with
      | None => throw invalidInput
      | Some a0 =>
          if bool_decide (a0 = "--EOL") then
            Result w [Log (jsonString (EOL P))] Break
          else if bool_decide (a0 = "--cpus") then
            Result w [Table (map cpuRow (cpus P))] Break
          else if bool_decide (a0 = "--homedir") then
            Result w [Log (homedir P)] Break
          else if bool_decide (a0 = "--username") then
            Result w [Log (userName P)] Break
          else if bool_decide (a0 = "--architecture") then
            Result w [Log (arch P)] Break
          else throw invalidInput
      end
  | Hash =>
      match given args 0 with
      | None => throw invalidInput
      | Some a0 =>
          let filePath := Path.resolve cwd cur a0 in
          let hashStream := Stream.readEvents (fs w) filePath in
          (* [hashStream.pipe(hash)] is called twice *)
          let hash := Stream.pipeToHash 2 hashStream in
          match Stream.failure hashStream, Stream.finished hash with
          | Some e, _ => Result w [] (Uncaught e)
          | None, Some hashValue => Result w [Log hashValue] Break
          | None, None => Result w [] (Unsettled None)
          end
      end
  | Compress =>
      match given args 0, given args 1 with
      | Some a0, Some a1 =>
          let srcCompress := Path.resolve cwd cur a0 in
          let destCompress := Path.resolve cwd cur a1 in
          let '(fs', err) :=
            Stream.pipeline (fs w) srcCompress compressor destCompress in
          Result w [] (Detached fs' err)
      | _, _ => throw invalidInput
      end
  | Decompress =>
      match given args 0, given args 1 with
      | Some a0, Some a1 =>
          let srcDecompress := Path.resolve cwd cur a0 in
          let destDecompress := Path.resolve cwd cur a1 in
          let '(fs', err) :=
            Stream.pipeline (fs w) srcDecompress decompressor
                            destDecompress in
          Result w [] (Detached fs' err)
      | _, _ => throw invalidInput
      end
  | DotExit => Result w [Log farewell] (Exit 0)
  | Default => throw invalidInput
  end.

(** The [catch] clause prints the message when it is one of the two
    known ones, and ['Operation failed'] otherwise. *)
Definition report (e : exn) : string :=
  if bool_decide (message e = "Invalid input")
     || bool_decide (message e = "Operation failed")
  then message e else "Operation failed".

(** What follows the [try] block: the [catch] clause and
    [showCurrentDir()], when control gets there.  The callback of a
    detached pipeline runs after them; it throws on an error, outside
    of any [try]. *)
Definition conclude (r : result) : outcome :=
  let w' := after r in
  match how r with
  | Break =>
      Outcome w' (printed r ++ showCurrentDir w') AwaitingInput
  | Throw e =>
      Outcome w' (printed r ++ ErrorLine (report e) :: showCurrentDir w')
              AwaitingInput
  | Detached fs' err =>
      Outcome (World (currentDir w') fs')
              (printed r ++ showCurrentDir w')
              match err with
              | Some _ => Crashed operationFailed
              | None => AwaitingInput
              end
  | Exit code => Outcome w' (printed r) (Exited code)
  | Uncaught e => Outcome w' (printed r) (Crashed e)
  | Unsettled rejection => Outcome w' (printed r) (Stalled rejection)
  end.

(** One dispatch cycle: [handleCommand(input)]. *)
Definition handleCommand (w : world) (input : string) : outcome :=
  let '(name, args) := parseInput input in
  conclude (run w (select name) args).

(** [rl.on('line', handleCommand)]: the lines are handled one after
    the other for as long as the process awaits input. *)
Fixpoint session (w : world) (lines : list string) : list outcome :=
  match lines with
  | [] => []
  | line :: rest =>
      let o := handleCommand w line in
      o :: match state o with
           | AwaitingInput => session (final o) rest
           | _ => []
           end
  end.

(** The error lines of a cycle. *)
Definition errors (o : outcome) : list string :=
  omap (fun x => match x with ErrorLine l => Some l | _ => None end)
       (console o).

Definition prompted (o : outcome) : bool :=
  existsb (fun x => match x with Prompt => true | _ => false end)
          (console o).

End Program.
End FileManager.

Import FileManager.

(** ** Vocabulary of the specification *)

(** The dispatch table of the specification: the minimum argument count
    of each command. *)
Definition minArgs (c : command) : nat :=
  match c with
  | Up | Ls | DotExit | Default => 0
  | Cd | Cat | Add | Rm | Os | Hash => 1
  | Rn | Cp | Mv | Compress | Decompress => 2
  end.

(** The root of a POSIX filesystem. *)
Definition filesystemRoot : string := "/".

(** A canonical absolute path is the root followed by its segments, which
    are not empty and hold no separator. *)
Definition segment (s : string) : Prop :=
  s <> "" /\ Str.slash ∉ Str.chars s.

Definition absolute (segs : list string) : string :=
  "/" +:+ Str.join "/" segs.

(** An invocation fails when it prints an error line or does not come
    back to the prompt by itself. *)
Definition failing (o : outcome) : bool :=
  negb (bool_decide (errors o = []))
  || match state o with
     | Crashed _ | Stalled _ => true
     | AwaitingInput | Exited _ => false
     end.

(** The claim on [up], in the words of the specification: the parent,
    unless the current directory is the filesystem root. *)
Definition upAsSpecified (before after : string) : Prop :=
  if bool_decide (before = filesystemRoot)
  then after = before
  else after = Path.dirname before.

(** The claim on the failures of [cd], in the words of the specification:
    a failed probe or a target that is not a directory gives the error
    line of an invalid input. *)
Definition cdFailureAsSpecified (P : Platform) (w : world) (a : string)
  : Prop :=
  match Fs.stat (fs w) (Path.resolve (Fs.cwd (fs w)) (currentDir w) a) with
  | inr (Fs.Dir _) => True
  | _ => errors (handleCommand P w ("cd " +:+ a)) = ["Invalid input"]
  end.

(** A chunk written two times in a row. *)
Definition twice (chunk : list byte) : list byte := chunk ++ chunk.

(** A word of a command line: not empty, of printable ASCII characters
    other than the space. *)
Definition printable (c : ascii) : bool :=
  (32 <? nat_of_ascii c)%nat && (nat_of_ascii c <? 127)%nat.

Definition word (s : string) : Prop :=
  s <> "" /\ Forall (fun c => printable c = true) (Str.chars s).

(** A name of a directory entry: a segment other than [.] and [..]. *)
Definition plain (s : string) : Prop :=
  segment s /\ s <> "." /\ s <> "..".

(** What a command prints by itself: neither an error line nor the
    prompt. *)
Definition quiet (x : output) : Prop :=
  match x with
  | ErrorLine _ | Prompt => False
  | Log _ | Table _ | Stdout _ => True
  end.


(** The digits of a lowercase hexadecimal number. *)
Definition hexChar (c : ascii) : bool :=
  bool_decide (c ∈ Str.chars "0123456789abcdef").

(** The commands that only read: the others write to the filesystem. *)
Definition readOnly (c : command) : bool :=
  match c with
  | Up | Cd | Ls | Cat | Os | Hash | DotExit | Default => true
  | Add | Rn | Cp | Mv | Rm | Compress | Decompress => false
  end.

(** Nothing is stored below the key [k]. *)
Definition leaf (fs : Fs.t) (k : string) : bool :=
  forallb (fun kn : string * Fs.node => negb (Fs.under k kn.1))
          (map_to_list (Fs.nodes fs)).

(** ** A host and a filesystem for the examples *)

(** Comparison by code units.  On the names used in the examples it agrees
    with the collation of the usual locales. *)
Definition codeUnitCompare (a b : string) : Z :=
  match String.compare a b with
  | Lt => -1
  | Eq => 0
  | Gt => 1
  end.

(** The codec of the example host is a stand-in, the identity. *)
Definition host : Platform :=
  {| argv := ["node"; "index.js"; "--username=Ann"];
     homedir := "/home/ann";
     EOL := String "010"%char "";
     cpus := [("Example CPU", 2400)];
     ghz := fun _ => "2.40";
     userName := "ann";
     arch := "x64";
     localeCompare := codeUnitCompare;
     brotliCompress := fun data => data;
     brotliDecompress := fun data => (data, true) |}.

(** The home directory holds the entries [b.txt], [A] (a directory) and
    [z.txt] (empty); [/srv/mix] holds the file [a.txt] and the directory
    [b]; entries of [/srv/vault] cannot be removed. *)
Definition disk : Fs.t :=
  Fs.Make "/srv/app"
    (list_to_map
       [ ("/", Fs.Dir false);
         ("/home", Fs.Dir false);
         ("/home/ann", Fs.Dir true);
         ("/home/ann/b.txt", Fs.File (bytes "abc") true true);
         ("/home/ann/A", Fs.Dir true);
         ("/home/ann/z.txt", Fs.File [] true true);
         ("/srv", Fs.Dir true);
         ("/srv/app", Fs.Dir true);
         ("/srv/mix", Fs.Dir true);
         ("/srv/mix/a.txt", Fs.File (bytes "text") true true);
         ("/srv/mix/b", Fs.Dir true);
         ("/srv/vault", Fs.Dir false);
         ("/srv/vault/report.txt", Fs.File (bytes "abc") true true) ]).

(** A host like [host] whose home directory is [/srv/mix]. *)
Definition mixHost : Platform :=
  {| argv := argv host;
     homedir := "/srv/mix";
     EOL := EOL host;
     cpus := cpus host;
     ghz := ghz host;
     userName := userName host;
     arch := arch host;
     localeCompare := localeCompare host;
     brotliCompress := brotliCompress host;
     brotliDecompress := brotliDecompress host |}.


(** The program starts in the home directory; [/home] is where [up]
    leads from there. *)
Definition atHome : world := start host disk.
Definition atTopLevel : world := World "/home" disk.

(** Case analysis on a scrutinee of the goal that holds no other case
    analysis. *)
Ltac destruct_innermost :=
  match goal with
  | |- context [match ?x with _ => _ end] =>
      lazymatch x with
      | context [match _ with _ => _ end] => fail
      | _ => destruct x
      end
  end.

(** ** Lemmas on strings and paths *)

Lemma append_cons c s t : String c s +:+ t = String c (s +:+ t).
Proof. reflexivity. Qed.

Lemma append_nil_l s : "" +:+ s = s.
Proof. reflexivity. Qed.

Lemma append_assoc (a b c : string) : (a +:+ b) +:+ c = a +:+ b +:+ c.
Proof.
  induction a as [|x a IH]; [done|]. by rewrite !append_cons, IH.
Qed.

Lemma chars_app a b : Str.chars (a +:+ b) = Str.chars a ++ Str.chars b.
Proof.
  induction a as [|c a IH]; [done|].
  rewrite append_cons. unfold Str.chars in *. simpl. by rewrite IH.
Qed.

Lemma of_chars_chars s : Str.of_chars (Str.chars s) = s.
Proof. apply String.string_of_list_ascii_of_string. Qed.

Lemma truthy_true s : Str.truthy s = true <-> s <> "".
Proof. destruct s; simpl; split; intros; congruence. Qed.

Lemma join_snoc sep init s :
  init <> [] -> Str.join sep (init ++ [s]) = Str.join sep init +:+ sep +:+ s.
Proof.
  induction init as [|x init IH]; [done|]. intros _.
  destruct init as [|y init]; [done|].
  change (Str.join sep ((x :: y :: init) ++ [s]))
    with (x +:+ sep +:+ Str.join sep ((y :: init) ++ [s])).
  rewrite IH by done.
  change (Str.join sep (x :: y :: init))
    with (x +:+ sep +:+ Str.join sep (y :: init)).
  by rewrite !append_assoc.
Qed.

Lemma join_nonempty sep x l : x <> "" -> Str.join sep (x :: l) <> "".
Proof.
  intros Hx. destruct x as [|c x]; [done|].
  destruct l; [done|]. simpl. by rewrite append_cons.
Qed.

Lemma skipSegment_none l : Str.slash ∉ l -> Path.skipSegment l = None.
Proof.
  induction l as [|c l IH]; [done|]. intros Hc. simpl.
  unfold Str.eqc. case_bool_decide; [set_solver|]. apply IH. set_solver.
Qed.

Lemma skipSegment_found l r :
  Str.slash ∉ l -> Path.skipSegment (l ++ Str.slash :: r) = Some r.
Proof.
  induction l as [|c l IH]; intros Hc; simpl; unfold Str.eqc.
  - done.
  - case_bool_decide; [set_solver|]. apply IH. set_solver.
Qed.

Lemma skipSeparators_segment l r :
  l <> [] -> Str.slash ∉ l -> Path.skipSeparators (l ++ r) = l ++ r.
Proof.
  destruct l as [|c l]; [done|]. intros _ Hc. simpl.
  unfold Str.eqc. case_bool_decide; [set_solver|done].
Qed.

Lemma segment_rev s :
  segment s ->
  rev (Str.chars s) <> [] /\ Str.slash ∉ rev (Str.chars s).
Proof.
  intros [Hne Hs]. split.
  - destruct s; [done|]. unfold Str.chars. simpl.
    intros H. by apply app_eq_nil in H as [_ ?].
  - by rewrite list_elem_of_In, <- in_rev, <- list_elem_of_In.
Qed.

Lemma segment_check s :
  Str.truthy s
  && forallb (fun c => negb (Str.eqc c Str.slash)) (Str.chars s) = true ->
  segment s.
Proof.
  intros [Hs Hc]%andb_true_iff. split; [by apply truthy_true|].
  rewrite list_elem_of_In. intros Hin.
  rewrite forallb_forall in Hc. specialize (Hc _ Hin).
  unfold Str.eqc in Hc. by rewrite bool_decide_eq_true_2 in Hc.
Qed.

(** The scan over a canonical path with a single segment finds no
    directory part. *)
Lemma beforeLastSegment_single s :
  segment s -> Path.beforeLastSegment (rev (Str.chars s)) = None.
Proof.
  intros Hs. destruct (segment_rev s Hs) as [Hne Hno].
  unfold Path.beforeLastSegment.
  rewrite <- (app_nil_r (rev (Str.chars s))).
  rewrite skipSeparators_segment, app_nil_r by done.
  by apply skipSegment_none.
Qed.

(** The scan over a canonical path with several segments finds the text
    before its last segment. *)
Lemma beforeLastSegment_several before s :
  segment s ->
  Path.beforeLastSegment (rev (Str.chars (before +:+ "/" +:+ s)))
  = Some (rev (Str.chars before)).
Proof.
  intros Hs. destruct (segment_rev s Hs) as [Hne Hno].
  rewrite !chars_app, !rev_app_distr. simpl.
  rewrite <- app_assoc. simpl.
  unfold Path.beforeLastSegment.
  rewrite skipSeparators_segment by done.
  by apply skipSegment_found.
Qed.

Lemma absolute_unfold segs : absolute segs = String "/" (Str.join "/" segs).
Proof. reflexivity. Qed.

Lemma parse_absolute_several init s :
  segment s ->
  Path.parse (absolute (init ++ [s]))
  = if bool_decide (init = [])
    then {| Path.root := "/"; Path.dir := "/" |}
    else {| Path.root := "/"; Path.dir := absolute init |}.
Proof.
  intros Hs. rewrite absolute_unfold. unfold Path.parse.
  change (Str.eqc "/" Str.slash) with true. cbv iota.
  case_bool_decide as Hi.
  - subst init. simpl app. change (Str.join "/" [s]) with s.
    by rewrite beforeLastSegment_single.
  - rewrite join_snoc by done.
    rewrite beforeLastSegment_several by done.
    by rewrite rev_involutive, of_chars_chars.
Qed.

Lemma absolute_not_root x l : x <> "" -> absolute (x :: l) <> "/".
Proof.
  intros Hx. rewrite absolute_unfold. intros [=H].
  by apply (join_nonempty "/" x l).
Qed.

(** [isRootDir] holds of the root and of the entries of the root, and of
    no deeper canonical path. *)
Lemma isRootDir_absolute segs :
  Forall segment segs ->
  isRootDir (absolute segs) = bool_decide (length segs <= 1)%nat.
Proof.
  intros Hsegs. destruct segs as [|x segs _] using rev_ind.
  { rewrite bool_decide_eq_true_2 by (simpl; lia). reflexivity. }
  apply Forall_app in Hsegs as [Hinit Hx].
  rewrite Forall_singleton in Hx.
  unfold isRootDir. rewrite parse_absolute_several by done.
  rewrite length_app. simpl length.
  destruct segs as [|y segs].
  - rewrite (bool_decide_eq_true_2 (@nil string = [])) by done.
    simpl Path.dir. simpl Path.root.
    rewrite (bool_decide_eq_true_2 ("/" = "/")) by done.
    rewrite orb_true_r. symmetry. apply bool_decide_eq_true_2. simpl. lia.
  - apply Forall_cons in Hinit as [[Hy _] _].
    rewrite (bool_decide_eq_false_2 (y :: segs = [])) by done.
    simpl Path.dir. simpl Path.root.
    rewrite !bool_decide_eq_false_2; [done|simpl; lia| |].
    + by apply absolute_not_root.
    + intros H. symmetry in H. revert H. by apply absolute_not_root.
Qed.

Lemma dirname_absolute init s :
  init <> [] -> Forall segment init -> segment s ->
  Path.dirname (absolute (init ++ [s])) = absolute init.
Proof.
  intros Hne Hinit Hs. rewrite absolute_unfold. unfold Path.dirname.
  rewrite join_snoc by done.
  rewrite beforeLastSegment_several by done.
  change (Str.eqc "/" Str.slash) with true. cbv iota.
  rewrite andb_true_l, bool_decide_eq_false_2.
  - by rewrite rev_involutive, of_chars_chars.
  - destruct init as [|y init]; [done|].
    apply Forall_cons in Hinit as [[Hy _] _].
    intros H. apply (join_nonempty "/" y init Hy).
    rewrite <- (of_chars_chars (Str.join "/" (y :: init))).
    rewrite <- (rev_involutive (Str.chars _)). by rewrite H.
Qed.

(** ** Lemmas on the parser *)

Lemma parseInput_truthy input name args :
  parseInput input = (name, args) ->
  Forall (fun a => Str.truthy a = true) args.
Proof.
  unfold parseInput.
  destruct (List.filter Str.truthy _) as [|c l] eqn:Hf; intros [= <- <-].
  - constructor.
  - assert (Forall (fun a => Str.truthy a = true) (c :: l)) as H.
    { rewrite <- Hf. apply List.Forall_forall. intros a Ha.
      by apply List.filter_In in Ha as [_ ?]. }
    by apply Forall_cons in H as [_ ?].
Qed.

Lemma given_cons_0 a args : Str.truthy a = true -> given (a :: args) 0 = Some a.
Proof. intros H. unfold given. simpl. by rewrite H. Qed.

Lemma given_cons_1 a b args :
  Str.truthy b = true -> given (a :: b :: args) 1 = Some b.
Proof. intros H. unfold given. simpl. by rewrite H. Qed.

Lemma handleCommand_unfold P w input name args :
  parseInput input = (name, args) ->
  handleCommand P w input = conclude (run P w (select name) args).
Proof. intros H. unfold handleCommand. by rewrite H. Qed.

Lemma conclude_currentDir r :
  currentDir (final (conclude r)) = currentDir (after r).
Proof. unfold conclude. by destruct (how r) as [| |e| | | ]. Qed.

Lemma report_known e :
  report e = "Invalid input" \/ report e = "Operation failed".
Proof.
  unfold report. repeat case_bool_decide; simpl; auto.
Qed.

Lemma report_system code syscall path :
  report (SystemError code syscall path) = "Operation failed".
Proof. by destruct code. Qed.

(** The body of the [try] block moves the current directory in the case
    [up] only: the assignment in [cd] stands behind a condition that
    throws. *)
Lemma run_currentDir P w c args :
  c <> Up -> currentDir (after (run P w c args)) = currentDir w.
Proof.
  intros Hc. destruct c; try done; simpl;
    repeat match goal with
           | |- context [match ?x with _ => _ end] => destruct x
           end; done.
Qed.

(** ** [up] *)

Lemma atTopLevel_reached : final (handleCommand host atHome "up") = atTopLevel.
Proof. reflexivity. Qed.

(** C6 (counterexample): in [/home], which is not the filesystem root,
    [up] leaves the current directory where it is instead of moving to the
    parent [/]. *)
Lemma up_below_root_counterexample :
  ~ upAsSpecified
      (currentDir atTopLevel)
      (currentDir (final (handleCommand host atTopLevel "up"))).
Proof.
  unfold upAsSpecified.
  change (currentDir (final (handleCommand host atTopLevel "up")))
    with "/home".
  change (currentDir atTopLevel) with "/home".
  rewrite bool_decide_eq_false_2 by done.
  change (Path.dirname "/home") with "/". discriminate.
Qed.

(** C6 (amended): for every canonical current directory, [up] sets the
    current directory to its parent unless the current directory is the
    filesystem root or an entry of the root (its parent is the root); in
    these two cases [up] changes nothing. *)
Theorem up_moves_to_parent_below_top_level P w input args segs :
  parseInput input = (Some "up", args) ->
  Forall segment segs ->
  currentDir w = absolute segs ->
  currentDir (final (handleCommand P w input))
  = if (length segs <=? 1)%nat then currentDir w
    else absolute (removelast segs).
Proof.
  intros Hparse Hsegs Hcur.
  rewrite (handleCommand_unfold _ _ _ _ _ Hparse), conclude_currentDir.
  change (select (Some "up")) with Up. unfold run.
  rewrite Hcur, isRootDir_absolute by done.
  destruct (Nat.leb_spec (length segs) 1) as [Hle|Hgt].
  - by rewrite bool_decide_eq_true_2.
  - rewrite bool_decide_eq_false_2 by lia. simpl.
    destruct segs as [|s init _] using rev_ind; [simpl in Hgt; lia|].
    apply Forall_app in Hsegs as [Hinit Hs].
    rewrite Forall_singleton in Hs.
    rewrite length_app in Hgt. simpl in Hgt.
    rewrite removelast_last. apply dirname_absolute; [|done..].
    intros ->. simpl in Hgt. lia.
Qed.

Lemma up_moves_to_parent_below_top_level_witness :
  currentDir (final (handleCommand host atHome "up")) = "/home".
Proof.
  apply (up_moves_to_parent_below_top_level host atHome "up" []
           ["home"; "ann"]).
  - reflexivity.
  - repeat constructor; by apply segment_check.
  - reflexivity.
Defined.

(** ** Argument checks and the default case *)

(** C7: an input line whose command is no label of the dispatch table, or
    a command with fewer arguments than it requires, prints the error line
    of an invalid input and leaves the current directory (and the
    filesystem) unchanged. *)
Theorem unknown_or_short_command_is_invalid_input P w input name args :
  parseInput input = (name, args) ->
  select name = Default \/ (length args < minArgs (select name))%nat ->
  errors (handleCommand P w input) = ["Invalid input"]
  /\ currentDir (final (handleCommand P w input)) = currentDir w
  /\ fs (final (handleCommand P w input)) = fs w.
Proof.
  intros Hparse Hbad.
  rewrite (handleCommand_unfold _ _ _ _ _ Hparse).
  assert (run P w (select name) args = Result w [] (Throw invalidInput))
    as ->; [|done].
  destruct Hbad as [-> | Hshort]; [done|].
  destruct (select name); simpl in Hshort; try lia;
    destruct args as [|a [|b args]]; simpl in Hshort; try lia;
    unfold run, given; simpl;
    repeat match goal with
           | |- context [Str.truthy ?x] => destruct (Str.truthy x)
           end; done.
Qed.

Lemma unknown_or_short_command_is_invalid_input_witness :
  errors (handleCommand host atHome "rn b.txt") = ["Invalid input"]
  /\ currentDir (final (handleCommand host atHome "rn b.txt")) = "/home/ann"
  /\ fs (final (handleCommand host atHome "rn b.txt")) = disk.
Proof.
  apply (unknown_or_short_command_is_invalid_input host atHome "rn b.txt"
           (Some "rn") ["b.txt"]).
  - reflexivity.
  - right. simpl. lia.
Defined.

(** ** The frame of the current directory *)

(** C9: a dispatch cycle whose command is neither [up] nor [cd], and any
    failing cycle, leaves the current directory as it was. *)
Theorem currentDir_mutated_only_by_up_and_cd P w input name args :
  parseInput input = (name, args) ->
  (select name <> Up /\ select name <> Cd)
  \/ failing (handleCommand P w input) = true ->
  currentDir (final (handleCommand P w input)) = currentDir w.
Proof.
  intros Hparse Hcase.
  rewrite (handleCommand_unfold _ _ _ _ _ Hparse) in *.
  rewrite conclude_currentDir.
  destruct (decide (select name = Up)) as [Hup|Hup];
    [|by apply run_currentDir].
  destruct Hcase as [[? _]|Hfail]; [done|].
  rewrite Hup in Hfail. unfold run in Hfail.
  by destruct (negb (isRootDir (currentDir w))).
Qed.

Lemma currentDir_mutated_only_by_up_and_cd_witness :
  currentDir (final (handleCommand host atHome "rm A")) = "/home/ann".
Proof.
  apply (currentDir_mutated_only_by_up_and_cd host atHome "rm A"
           (Some "rm") ["A"]).
  - reflexivity.
  - left. split; discriminate.
Defined.

(** ** [cd] *)

Lemma errors_thrown w e :
  errors (conclude (Result w [] (Throw e))) = [report e].
Proof. reflexivity. Qed.

(** C1 (counterexample): the probe of [/home/ann/nope] fails, and the
    error line is the one of a failed operation. *)
Lemma cd_missing_target_counterexample :
  ~ cdFailureAsSpecified host atHome "nope".
Proof.
  unfold cdFailureAsSpecified.
  change (Fs.stat (fs atHome)
            (Path.resolve (Fs.cwd (fs atHome)) (currentDir atHome) "nope"))
    with (@inl Fs.errno Fs.node Fs.ENOENT).
  change (errors (handleCommand host atHome ("cd " +:+ "nope")))
    with ["Operation failed"].
  discriminate.
Qed.

(** C1 (amended): for every [cd] with an argument, when the metadata
    probe of the resolved path fails the command prints the error line of
    a failed operation, and when the probe succeeds on something that is
    not a directory it prints the error line of an invalid input; in both
    cases the current directory is unchanged. *)
Theorem cd_failure_kinds P w input a rest :
  parseInput input = (Some "cd", a :: rest) ->
  (forall code,
      Fs.stat (fs w) (Path.resolve (Fs.cwd (fs w)) (currentDir w) a)
      = inl code ->
      errors (handleCommand P w input) = ["Operation failed"]
      /\ currentDir (final (handleCommand P w input)) = currentDir w)
  /\ (forall n,
         Fs.stat (fs w) (Path.resolve (Fs.cwd (fs w)) (currentDir w) a)
         = inr n ->
         Fs.isDirectory n = false ->
         errors (handleCommand P w input) = ["Invalid input"]
         /\ currentDir (final (handleCommand P w input)) = currentDir w).
Proof.
  intros Hparse.
  pose proof (parseInput_truthy _ _ _ Hparse) as Hargs.
  apply Forall_cons in Hargs as [Ha _].
  rewrite (handleCommand_unfold _ _ _ _ _ Hparse).
  change (select (Some "cd")) with Cd. unfold run.
  rewrite (given_cons_0 _ _ Ha).
  split.
  - intros code ->. by rewrite errors_thrown, report_system.
  - intros n -> ->. done.
Qed.

Lemma cd_failure_kinds_witness :
  errors (handleCommand host atHome "cd nope") = ["Operation failed"]
  /\ errors (handleCommand host atHome "cd b.txt") = ["Invalid input"].
Proof.
  split.
  - destruct (cd_failure_kinds host atHome "cd nope" "nope" [] eq_refl)
      as [Hprobe _].
    by apply (Hprobe Fs.ENOENT).
  - destruct (cd_failure_kinds host atHome "cd b.txt" "b.txt" [] eq_refl)
      as [_ Hkind].
    by apply (Hkind (Fs.File (bytes "abc") true true)).
Defined.

(** X25: [cd] to an existing directory: the condition in front of the
    assignment throws, so the error line of a failed operation is printed
    and the current directory and the filesystem stay as they are. *)
Lemma cd_directory_throws P w input a rest writable :
  parseInput input = (Some "cd", a :: rest) ->
  Fs.stat (fs w) (Path.resolve (Fs.cwd (fs w)) (currentDir w) a)
  = inr (Fs.Dir writable) ->
  errors (handleCommand P w input) = ["Operation failed"]
  /\ final (handleCommand P w input) = w.
Proof.
  intros Hparse Hstat.
  pose proof (parseInput_truthy _ _ _ Hparse) as Hargs.
  apply Forall_cons in Hargs as [Ha _].
  rewrite (handleCommand_unfold _ _ _ _ _ Hparse).
  change (select (Some "cd")) with Cd. unfold run.
  by rewrite (given_cons_0 _ _ Ha), Hstat.
Qed.

(** ** [add] *)

Lemma find_file fs p content r w :
  Fs.find fs p = inr (Fs.File content r w) ->
  Str.truthy p = true
  /\ Fs.nodes fs !! Fs.key fs p = Some (Fs.File content r w)
  /\ Path.endsWithSlash p = false.
Proof.
  unfold Fs.find. destruct (Str.truthy p); [|done]. simpl.
  destruct (Fs.nodes fs !! Fs.key fs p) as [n|]; [|done].
  destruct (Path.endsWithSlash p); simpl.
  - destruct n; simpl; [done| |done]. by intros [= <-].
  - by intros [= <-].
Qed.

(** Writing no data to an existing writable file empties it and keeps its
    permissions. *)
Lemma writeFile_truncates fs p content r :
  Fs.find fs p = inr (Fs.File content r true) ->
  exists fs',
    Fs.writeFile fs p [] = inr fs'
    /\ Fs.find fs' p = inr (Fs.File [] r true).
Proof.
  intros (Hp & Hnode & Hslash)%find_file.
  unfold Fs.writeFile, Fs.openWrite. rewrite Hp, Hnode, Hslash. simpl.
  eexists. split; [reflexivity|].
  unfold Fs.find, Fs.append, Fs.withNodes, Fs.key. simpl.
  rewrite Hp, Hslash. simpl.
  fold (Fs.key fs p).
  by rewrite lookup_alter_eq, lookup_insert_eq.
Qed.

(** C10: [add] on a path that exists as a writable file succeeds, and the
    file is empty afterwards. *)
Theorem add_truncates_existing_file P w input a rest content r :
  parseInput input = (Some "add", a :: rest) ->
  Fs.stat (fs w) (Path.join2 (currentDir w) a)
  = inr (Fs.File content r true) ->
  errors (handleCommand P w input) = []
  /\ state (handleCommand P w input) = AwaitingInput
  /\ Fs.stat (fs (final (handleCommand P w input)))
             (Path.join2 (currentDir w) a)
     = inr (Fs.File [] r true).
Proof.
  intros Hparse Hstat.
  pose proof (parseInput_truthy _ _ _ Hparse) as Hargs.
  apply Forall_cons in Hargs as [Ha _].
  rewrite (handleCommand_unfold _ _ _ _ _ Hparse).
  change (select (Some "add")) with Add. unfold run.
  rewrite (given_cons_0 _ _ Ha).
  destruct (writeFile_truncates _ _ _ _ Hstat) as (fs' & -> & Hfind).
  done.
Qed.

Lemma add_truncates_existing_file_witness :
  errors (handleCommand host atHome "add b.txt") = []
  /\ state (handleCommand host atHome "add b.txt") = AwaitingInput
  /\ Fs.stat (fs (final (handleCommand host atHome "add b.txt")))
             "/home/ann/b.txt"
     = inr (Fs.File [] true true).
Proof.
  apply (add_truncates_existing_file host atHome "add b.txt" "b.txt" []
           (bytes "abc") true); reflexivity.
Defined.

(** ** [hash] *)

(** The digest is computed when the hash is ended, over what it absorbed
    before. *)
Lemma finished_after_end calls h digest :
  (Stream.finished h = None \/ Stream.ended h = true) ->
  Stream.finished (fold_left Stream.apply calls h) = Some digest ->
  Stream.ended (fold_left Stream.apply calls h) = true.
Proof.
  revert h. induction calls as [|c calls IH]; intros h Hinv Hfin; simpl in *.
  - destruct Hinv as [Hnone|?]; [congruence|done].
  - apply IH; [|done].
    destruct c; simpl; destruct (Stream.ended h) eqn:He; simpl; auto.
Qed.

Lemma pipeToHash_data chunks rest absorbed :
  fold_left Stream.apply
    (concat (map (Stream.deliver 2) (map Stream.Data chunks)) ++ rest)
    (Stream.Hasher absorbed false None)
  = fold_left Stream.apply rest
      (Stream.Hasher (absorbed ++ concat (map twice chunks)) false None).
Proof.
  revert absorbed. induction chunks as [|c chunks IH]; intros absorbed.
  - simpl. by rewrite app_nil_r.
  - simpl. rewrite IH. unfold twice. by rewrite <- !app_assoc.
Qed.

(** With its two pipes, the hash absorbs every chunk of the file twice
    before it is ended. *)
Lemma pipeToHash_file chunks :
  Stream.pipeToHash 2 (map Stream.Data chunks ++ [Stream.End])
  = Stream.Hasher (concat (map twice chunks)) true
      (Some (Sha256.digestHex (concat (map twice chunks)))).
Proof.
  unfold Stream.pipeToHash, Stream.createHash.
  rewrite map_app, concat_app. rewrite pipeToHash_data. reflexivity.
Qed.

Lemma failure_data chunks :
  Stream.failure (map Stream.Data chunks ++ [Stream.End]) = None.
Proof. induction chunks; simpl; auto. Qed.

(** What [hash] prints for a file that can be read. *)
Lemma hash_prints P w input a rest content :
  parseInput input = (Some "hash", a :: rest) ->
  Fs.openRead (fs w) (Path.resolve (Fs.cwd (fs w)) (currentDir w) a)
  = inr content ->
  console (handleCommand P w input)
  = [ Log (Sha256.digestHex
             (concat (map twice (groups Stream.highWaterMark content))));
      Log ("You are currently in " +:+ currentDir w);
      Prompt ].
Proof.
  intros Hparse Hopen.
  pose proof (parseInput_truthy _ _ _ Hparse) as Hargs.
  apply Forall_cons in Hargs as [Ha _].
  rewrite (handleCommand_unfold _ _ _ _ _ Hparse).
  change (select (Some "hash")) with Hash. unfold run.
  rewrite (given_cons_0 _ _ Ha).
  unfold Stream.readEvents. rewrite Hopen.
  by rewrite failure_data, pipeToHash_file.
Qed.

Lemma groups_single {A} n (l : list A) :
  l <> [] -> (length l <= n)%nat -> groups n l = [l].
Proof.
  intros Hne Hlen. unfold groups.
  destruct l as [|x l]; [done|]. simpl length. unfold groupsFuel.
  fold (@groupsFuel A). rewrite take_ge, drop_ge by done.
  by destruct (length l).
Qed.

(** X23: for a file that is not empty and fits one chunk (64 KiB),
    [hash] prints the SHA-256 digest of its content written twice. *)
Lemma hash_of_small_file P w input a rest content :
  parseInput input = (Some "hash", a :: rest) ->
  Fs.openRead (fs w) (Path.resolve (Fs.cwd (fs w)) (currentDir w) a)
  = inr content ->
  content <> [] -> (length content <= Stream.highWaterMark)%nat ->
  console (handleCommand P w input)
  = [ Log (Sha256.digestHex (content ++ content));
      Log ("You are currently in " +:+ currentDir w);
      Prompt ].
Proof.
  intros Hparse Hopen Hne Hlen.
  rewrite (hash_prints P w input a rest content Hparse Hopen).
  rewrite groups_single by done. simpl. unfold twice.
  by rewrite app_nil_r.
Qed.

Lemma digest_of_nothing :
  Sha256.digestHex []
  = "e3b0c44298fc1c149afbf4c8996fb92427ae41e4649b934ca495991b7852b855".
Proof. vm_compute. reflexivity. Qed.

(** C8: [hash] on an empty readable file prints the SHA-256 digest of
    zero bytes. *)
Theorem hash_of_empty_file P w input a rest writable :
  parseInput input = (Some "hash", a :: rest) ->
  Fs.stat (fs w) (Path.resolve (Fs.cwd (fs w)) (currentDir w) a)
  = inr (Fs.File [] true writable) ->
  console (handleCommand P w input)
  = [ Log "e3b0c44298fc1c149afbf4c8996fb92427ae41e4649b934ca495991b7852b855";
      Log ("You are currently in " +:+ currentDir w);
      Prompt ].
Proof.
  intros Hparse Hstat.
  rewrite (hash_prints P w input a rest []); [by rewrite <- digest_of_nothing|done|].
  unfold Fs.openRead. unfold Fs.stat in Hstat. by rewrite Hstat.
Qed.

Lemma hash_of_empty_file_witness :
  console (handleCommand host atHome "hash z.txt")
  = [ Log "e3b0c44298fc1c149afbf4c8996fb92427ae41e4649b934ca495991b7852b855";
      Log "You are currently in /home/ann";
      Prompt ].
Proof.
  apply (hash_of_empty_file host atHome "hash z.txt" "z.txt" [] true);
    reflexivity.
Defined.

(** C3 (the code at the failing input): for the file [b.txt], which holds
    the three bytes [abc], [hash] prints the digest of the six bytes
    [abcabc], which is not the digest of the file. *)
Theorem hash_digests_content_twice :
  console (handleCommand host atHome "hash b.txt")
  = [ Log "bbb59da3af939f7af5f360f2ceb80a496e3bae1cd87dde426db0ae40677e1c2c";
      Log "You are currently in /home/ann";
      Prompt ]
  /\ Sha256.digestHex (bytes "abcabc")
     = "bbb59da3af939f7af5f360f2ceb80a496e3bae1cd87dde426db0ae40677e1c2c"
  /\ Sha256.digestHex (bytes "abc")
     = "ba7816bf8f01cfea414140de5dae2223b00361a396177a9cb410ff61f20015ad".
Proof. repeat split; vm_compute; reflexivity. Qed.

(** ** [Array.prototype.sort] *)

Section SortFacts.
Context {A : Type} (compareFn : A -> A -> Z).

Lemma insertSorted_Permutation x l :
  Js.insertSorted compareFn x l ≡ₚ x :: l.
Proof.
  induction l as [|y l IH]; simpl; [done|].
  destruct (compareFn x y <=? 0); [done|].
  rewrite IH. apply Permutation_swap.
Qed.

Lemma sort_Permutation l : Js.sort compareFn l ≡ₚ l.
Proof.
  induction l as [|x l IH]; simpl; [done|].
  by rewrite insertSorted_Permutation, IH.
Qed.

Hypothesis compareFn_total :
  forall a b, compareFn a b <= 0 \/ compareFn b a <= 0.

Lemma insertSorted_Sorted x l :
  Sorted (fun a b => compareFn a b <= 0) l ->
  Sorted (fun a b => compareFn a b <= 0) (Js.insertSorted compareFn x l).
Proof.
  induction 1 as [|y l Hl IH Hhd]; simpl.
  - by repeat constructor.
  - destruct (Z.leb_spec (compareFn x y) 0) as [Hle|Hgt].
    + by repeat constructor.
    + constructor; [done|].
      assert (compareFn y x <= 0) as Hyx.
      { destruct (compareFn_total x y); [lia|done]. }
      destruct Hhd as [|z l Hyz]; simpl; [by constructor|].
      destruct (compareFn x z <=? 0); by constructor.
Qed.

Lemma sort_Sorted l :
  Sorted (fun a b => compareFn a b <= 0) (Js.sort compareFn l).
Proof.
  induction l as [|x l IH]; simpl; [constructor|].
  by apply insertSorted_Sorted.
Qed.

End SortFacts.

(** ** [ls] *)

Lemma readdir_mix :
  exists items,
    Fs.readdir disk "/srv/mix" = inr items
    /\ List.filter (fun item => Fs.isDirectory item.2) items
       = [("b", Fs.Dir true)]
    /\ List.filter (fun item => Fs.isFile item.2) items
       = [("a.txt", Fs.File (bytes "text") true true)].
Proof. eexists. split; [vm_compute; reflexivity|]. split; reflexivity. Qed.

(** What [ls] prints holds the directories and the regular files of the
    listing and is ordered by name alone, whatever the types. *)
Lemma listing_Permutation P items :
  listing P items
  ≡ₚ map (fun item => Entry item.1 "directory")
       (List.filter (fun item => Fs.isDirectory item.2) items)
     ++ map (fun item => Entry item.1 "file")
          (List.filter (fun item => Fs.isFile item.2) items).
Proof. apply sort_Permutation. Qed.

Lemma listing_Sorted P items :
  (forall a b, localeCompare P a b <= 0 \/ localeCompare P b a <= 0) ->
  Sorted (fun a b => localeCompare P (name a) (name b) <= 0)
         (listing P items).
Proof.
  intros Htotal.
  apply (sort_Sorted (fun a b => localeCompare P (name a) (name b))).
  intros a b. apply Htotal.
Qed.

(** C2 (the code at the failing input): on a host whose home directory
    is [/srv/mix], which holds the file [a.txt] and the directory [b], and
    whose locale orders [a.txt] before [b], the first [ls] of the session
    lists the file before the directory. *)
Theorem ls_lists_file_before_directory P :
  homedir P = "/srv/mix" ->
  localeCompare P "a.txt" "b" < 0 < localeCompare P "b" "a.txt" ->
  console (handleCommand P (start P disk) "ls")
  = [ Table [ [("name", "a.txt"); ("type", "file")];
              [("name", "b"); ("type", "directory")] ];
      Log "You are currently in /srv/mix";
      Prompt ].
Proof.
  intros Hhome [_ Horder].
  rewrite (handleCommand_unfold P _ "ls" (Some "ls") []) by reflexivity.
  change (select (Some "ls")) with Ls. unfold run, start. simpl fs.
  simpl currentDir. rewrite Hhome.
  destruct readdir_mix as (items & Hread & Hdirs & Hfiles).
  rewrite Hread. unfold listing. rewrite Hdirs, Hfiles. simpl.
  apply Z.leb_gt in Horder. by rewrite Horder.
Qed.

Lemma ls_lists_file_before_directory_witness :
  console (handleCommand mixHost (start mixHost disk) "ls")
  = [ Table [ [("name", "a.txt"); ("type", "file")];
              [("name", "b"); ("type", "directory")] ];
      Log "You are currently in /srv/mix";
      Prompt ].
Proof.
  apply (ls_lists_file_before_directory mixHost);
    [reflexivity | split; reflexivity].
Defined.

(** The example of the specification: on the entries [b.txt], [A] (a
    directory) and [z.txt] the order is [A], [b.txt], [z.txt]. *)
Example ls_home :
  console (handleCommand host atHome "ls")
  = [ Table [ [("name", "A"); ("type", "directory")];
              [("name", "b.txt"); ("type", "file")];
              [("name", "z.txt"); ("type", "file")] ];
      Log "You are currently in /home/ann";
      Prompt ].
Proof. vm_compute. reflexivity. Qed.

(** ** [cp] *)

(** An error of the pipeline of [cp] reaches its callback after the
    cycle has shown the prompt; what the callback throws is caught by
    nothing. *)
Lemma cp_error_is_uncaught P w input a b rest fs' e :
  parseInput input = (Some "cp", a :: b :: rest) ->
  Stream.pipeline (fs w)
    (Path.resolve (Fs.cwd (fs w)) (currentDir w) a) Stream.passThrough
    (Path.resolve (Fs.cwd (fs w)) (currentDir w) b)
  = (fs', Some e) ->
  errors (handleCommand P w input) = []
  /\ state (handleCommand P w input) = Crashed operationFailed.
Proof.
  intros Hparse Hpipe.
  pose proof (parseInput_truthy _ _ _ Hparse) as Hargs.
  apply Forall_cons in Hargs as [Ha Hargs].
  apply Forall_cons in Hargs as [Hb _].
  rewrite (handleCommand_unfold _ _ _ _ _ Hparse).
  change (select (Some "cp")) with Cp. unfold run.
  by rewrite (given_cons_0 _ _ Ha), (given_cons_1 _ _ _ Hb), Hpipe.
Qed.

(** What is thrown inside the [try] block is caught: one error line, one
    of the two known ones, and the prompt again. *)
Lemma thrown_is_reported w out e :
  let o := conclude (Result w out (Throw e)) in
  errors o = errors (Outcome w out AwaitingInput) ++ [report e]
  /\ state o = AwaitingInput
  /\ final o = w
  /\ (report e = "Invalid input" \/ report e = "Operation failed").
Proof.
  repeat split; [|apply report_known].
  unfold errors, conclude. simpl. rewrite omap_app. by simpl.
Qed.

(** X24: a file that cannot be opened makes the stream of [cat] and of
    [hash] emit an error that nothing listens for: nothing is printed,
    neither an error line nor the prompt, and the process terminates. *)
Lemma unreadable_file_crashes P w input name a rest code :
  parseInput input = (Some name, a :: rest) ->
  select (Some name) = Cat \/ select (Some name) = Hash ->
  Fs.openRead (fs w) (Path.resolve (Fs.cwd (fs w)) (currentDir w) a)
  = inl code ->
  console (handleCommand P w input) = []
  /\ exists e, state (handleCommand P w input) = Crashed e.
Proof.
  intros Hparse Hname Hopen.
  pose proof (parseInput_truthy _ _ _ Hparse) as Hargs.
  apply Forall_cons in Hargs as [Ha _].
  rewrite (handleCommand_unfold _ _ _ _ _ Hparse).
  destruct Hname as [-> | ->]; unfold run;
    rewrite (given_cons_0 _ _ Ha); unfold Stream.readEvents;
    rewrite Hopen; simpl; eauto.
Qed.

(** C4 (the code at the failing input): [cp] of a file that does not
    exist prints no error line and terminates the process; the line that
    follows is not handled. *)
Theorem cp_failure_escapes_dispatcher :
  errors (handleCommand host atHome "cp missing.txt copy.txt") = []
  /\ state (handleCommand host atHome "cp missing.txt copy.txt")
     = Crashed operationFailed
  /\ session host atHome ["cp missing.txt copy.txt"; "ls"]
     = [handleCommand host atHome "cp missing.txt copy.txt"].
Proof. repeat split; vm_compute; reflexivity. Qed.

(** ** [mv] *)

(** The three ways [mv] with two arguments ends: the pipeline fails and
    the failure is reported, the source staying in place; or the copy
    completes and the source is removed; or the copy completes and the
    removal fails, which nothing reports. *)
Lemma mv_cases P w input a b rest :
  parseInput input = (Some "mv", a :: b :: rest) ->
  let src := Path.resolve (Fs.cwd (fs w)) (currentDir w) a in
  let dst := Path.resolve (Fs.cwd (fs w)) (currentDir w) b in
  let copied := Stream.pipeline (fs w) src Stream.passThrough dst in
  let o := handleCommand P w input in
  match copied.2, Fs.unlink copied.1 src with
  | Some _, _ =>
      errors o = ["Operation failed"] /\ fs (final o) = copied.1
      /\ state o = AwaitingInput
  | None, inr fs'' =>
      errors o = [] /\ fs (final o) = fs'' /\ state o = AwaitingInput
  | None, inl code =>
      errors o = [] /\ fs (final o) = copied.1 /\ prompted o = false
      /\ state o = Stalled (Some (SystemError code "unlink" src))
  end.
Proof.
  intros Hparse src dst copied o.
  pose proof (parseInput_truthy _ _ _ Hparse) as Hargs.
  apply Forall_cons in Hargs as [Ha Hargs].
  apply Forall_cons in Hargs as [Hb _].
  subst o. rewrite (handleCommand_unfold _ _ _ _ _ Hparse).
  change (select (Some "mv")) with Mv. unfold run.
  rewrite (given_cons_0 _ _ Ha), (given_cons_1 _ _ _ Hb).
  fold src dst copied. destruct copied as [fs' [e|]]; simpl; [done|].
  by destruct (Fs.unlink fs' src).
Qed.

Lemma openRead_inr fs p content :
  Fs.openRead fs p = inr content ->
  exists w, Fs.find fs p = inr (Fs.File content true w).
Proof.
  unfold Fs.openRead. destruct (Fs.find fs p) as [|[c r w| |]]; try done.
  destruct r; [|done]. intros [= ->]. by exists w.
Qed.

Lemma openWrite_inr fs p fs' :
  Fs.openWrite fs p = inr fs' ->
  exists r w,
    fs' = Fs.withNodes fs (<[Fs.key fs p := Fs.File [] r w]> (Fs.nodes fs))
    /\ forall n, Fs.nodes fs !! Fs.key fs p = Some n -> Fs.isFile n = true.
Proof.
  unfold Fs.openWrite. destruct (Str.truthy p); [|done]. simpl.
  destruct (Fs.nodes fs !! Fs.key fs p) as [[c r w| |]|] eqn:Hk; try done.
  - destruct (Path.endsWithSlash p); [done|]. destruct w; [|done].
    intros [= <-]. exists r, true. split; [done|]. by intros n [= <-].
  - destruct (Path.endsWithSlash p); [done|].
    destruct (Fs.nodes fs !! Path.dirname (Fs.key fs p)) as [[| [|] |]|];
      try done.
    intros [= <-]. by exists true, true.
Qed.

(** X26: [mv] between two different files, when the source can be read,
    the sink can be opened and the directory of the source lets its
    entries be removed: the command succeeds, the source path is gone and
    the destination holds the bytes the source held. *)
Lemma mv_moves_content P w input a b rest content opened :
  parseInput input = (Some "mv", a :: b :: rest) ->
  let src := Path.resolve (Fs.cwd (fs w)) (currentDir w) a in
  let dst := Path.resolve (Fs.cwd (fs w)) (currentDir w) b in
  let o := handleCommand P w input in
  Fs.key (fs w) src <> Fs.key (fs w) dst ->
  Fs.openRead (fs w) src = inr content ->
  Fs.openWrite (fs w) dst = inr opened ->
  Fs.nodes (fs w) !! Path.dirname (Fs.key (fs w) src) = Some (Fs.Dir true) ->
  errors o = [] /\ state o = AwaitingInput
  /\ Fs.nodes (fs (final o)) !! Fs.key (fs w) src = None
  /\ exists r wr,
       Fs.nodes (fs (final o)) !! Fs.key (fs w) dst
       = Some (Fs.File content r wr).
Proof.
  intros Hparse src dst o Hne Hread Hwrite Hparent.
  pose proof (mv_cases P w input a b rest Hparse) as Hmv.
  cbv zeta in Hmv. fold src dst o in Hmv.
  destruct (openRead_inr _ _ _ Hread) as (w0 & Hfind).
  destruct (find_file _ _ _ _ _ Hfind) as (Hsrc & Hnode & Hslash).
  destruct (openWrite_inr _ _ _ Hwrite) as (r & wr & -> & Hfile).
  assert (Path.dirname (Fs.key (fs w) src) <> Fs.key (fs w) dst) as Hpd.
  { intros Heq. rewrite Heq in Hparent. by specialize (Hfile _ Hparent). }
  unfold Stream.pipeline in Hmv. rewrite Hread, Hwrite in Hmv.
  assert (Fs.openRead
            (Fs.withNodes (fs w)
               (<[Fs.key (fs w) dst := Fs.File [] r wr]> (Fs.nodes (fs w))))
            src = inr content) as Hread'.
  { unfold Fs.openRead, Fs.find, Fs.withNodes, Fs.key. simpl.
    fold (Fs.key (fs w) src) (Fs.key (fs w) dst).
    rewrite Hsrc. simpl. rewrite lookup_insert_ne by done.
    by rewrite Hnode, Hslash. }
  rewrite Hread' in Hmv. simpl in Hmv.
  unfold Fs.unlink, Fs.find, Fs.append, Fs.withNodes, Fs.key in Hmv.
  simpl in Hmv.
  fold (Fs.key (fs w) src) (Fs.key (fs w) dst) in Hmv.
  rewrite Hsrc in Hmv. simpl in Hmv.
  rewrite lookup_alter_ne, lookup_insert_ne, Hnode, Hslash in Hmv by done.
  simpl in Hmv.
  rewrite lookup_alter_ne, lookup_insert_ne, Hparent in Hmv by done.
  destruct Hmv as (Herr & Hfs & Hstate).
  repeat split; [done..| |].
  - rewrite Hfs. simpl. apply lookup_delete_eq.
  - exists r, wr. rewrite Hfs. simpl.
    rewrite lookup_delete_ne by done.
    by rewrite lookup_alter_eq, lookup_insert_eq.
Qed.

(** C5 (the code at the failing input): moving [report.txt] out of
    [/srv/vault], whose entries cannot be removed, copies the file, prints
    neither an error line nor the prompt, and leaves the source in
    place. *)
Theorem mv_unlink_failure_is_not_reported :
  Fs.openRead
    (fs (final (handleCommand host atHome
                  "mv /srv/vault/report.txt copy.txt")))
    "/home/ann/copy.txt" = inr (bytes "abc")
  /\ Fs.openRead
       (fs (final (handleCommand host atHome
                     "mv /srv/vault/report.txt copy.txt")))
       "/srv/vault/report.txt" = inr (bytes "abc")
  /\ console (handleCommand host atHome "mv /srv/vault/report.txt copy.txt")
     = []
  /\ state (handleCommand host atHome "mv /srv/vault/report.txt copy.txt")
     = Stalled (Some (SystemError Fs.EACCES "unlink"
                                  "/srv/vault/report.txt")).
Proof. repeat split; vm_compute; reflexivity. Qed.

(** * Further properties of the program *)

(** ** Splitting and joining *)

Lemma split_nonempty sep s : Str.split sep s <> [].
Proof.
  destruct s as [|c s]; simpl; [done|].
  destruct (Str.eqc c sep); [done|]. by destruct (Str.split sep s).
Qed.


Lemma split_app sep a b :
  Str.split sep (a +:+ String sep b) = Str.split sep a ++ Str.split sep b.
Proof.
  induction a as [|c a IH]; rewrite ?append_cons, ?append_nil_l; simpl.
  - unfold Str.eqc. by rewrite bool_decide_eq_true_2.
  - destruct (Str.eqc c sep); [by rewrite IH|].
    rewrite IH. pose proof (split_nonempty sep a).
    by destruct (Str.split sep a).
Qed.

Lemma split_plain sep s : sep ∉ Str.chars s -> Str.split sep s = [s].
Proof.
  induction s as [|c s IH]; [done|]. unfold Str.chars. simpl. intros Hc.
  unfold Str.eqc. case_bool_decide; [set_solver|].
  unfold Str.chars in IH. rewrite IH; [done|set_solver].
Qed.

Lemma split_join sep l :
  l <> [] -> Forall (fun w => sep ∉ Str.chars w) l ->
  Str.split sep (Str.join (String sep "") l) = l.
Proof.
  induction l as [|x l IH]; [done|]. intros _ [Hx Hl]%Forall_cons.
  destruct l as [|y l]; [by apply split_plain|].
  change (Str.join (String sep "") (x :: y :: l))
    with (x +:+ String sep "" +:+ Str.join (String sep "") (y :: l)).
  rewrite append_cons, append_nil_l, split_app, split_plain by done.
  by rewrite IH.
Qed.

(** ** The command line *)



Lemma firstStrip_printable c l :
  printable c = true ->
  Str.firstStrip (map (map ascii_of_nat) Str.whiteSpace) (c :: l) = None
  /\ Str.firstStrip (map (@rev ascii) (map (map ascii_of_nat) Str.whiteSpace))
                    (c :: l) = None.
Proof.
  destruct c as [[] [] [] [] [] [] [] []]; intros Hc;
    try discriminate Hc; split; vm_compute; reflexivity.
Qed.

Lemma stripAll_printable fuel c l :
  printable c = true ->
  Str.stripAll fuel (map (map ascii_of_nat) Str.whiteSpace) (c :: l) = c :: l
  /\ Str.stripAll fuel
       (map (@rev ascii) (map (map ascii_of_nat) Str.whiteSpace)) (c :: l)
     = c :: l.
Proof.
  intros Hc. destruct (firstStrip_printable c l Hc) as [H1 H2].
  destruct fuel; [done|]. unfold Str.stripAll. by rewrite H1, H2.
Qed.

(** [trim] leaves a text that starts and ends with a printable character
    as it is. *)
Lemma trim_printable_ends s c l c' l' :
  Str.chars s = c :: l -> rev (Str.chars s) = c' :: l' ->
  printable c = true -> printable c' = true ->
  Str.trim s = s.
Proof.
  intros Hs Hr Hc Hc'. unfold Str.trim. fold (Str.chars s).
  cbv zeta. rewrite Hs.
  destruct (stripAll_printable (length (c :: l)) c l Hc) as [-> _].
  rewrite <- Hs, Hr.
  destruct (stripAll_printable (length (Str.chars s)) c' l' Hc') as [_ H2].
  rewrite Hs in H2. rewrite Hs, H2, <- Hr, rev_involutive.
  apply of_chars_chars.
Qed.

Lemma word_no_space s : word s -> " "%char ∉ Str.chars s.
Proof.
  intros [_ Hs] Hin. rewrite Forall_forall in Hs. by specialize (Hs _ Hin).
Qed.

Lemma chars_join_cons sep w ws :
  exists l, Str.chars (Str.join sep (w :: ws)) = Str.chars w ++ l.
Proof.
  destruct ws as [|w' ws].
  - exists []. by rewrite app_nil_r.
  - change (Str.join sep (w :: w' :: ws))
      with (w +:+ sep +:+ Str.join sep (w' :: ws)).
    rewrite chars_app. eauto.
Qed.

Lemma chars_join_last sep ws w :
  exists l, Str.chars (Str.join sep (ws ++ [w])) = l ++ Str.chars w.
Proof.
  destruct ws as [|w' ws].
  - by exists [].
  - rewrite join_snoc by done. rewrite !chars_app, app_assoc. eauto.
Qed.

(** X2: a command line made of words separated by single spaces is taken
    apart into exactly these words: the first is the command, the others
    are the arguments. *)
Theorem parseInput_join c args :
  Forall word (c :: args) ->
  parseInput (Str.join " " (c :: args)) = (Some c, args).
Proof.
  intros Hwords.
  assert (Str.trim (Str.join " " (c :: args)) = Str.join " " (c :: args))
    as Htrim.
  { pose proof Hwords as [[Hc Hcs] _]%Forall_cons.
    destruct (chars_join_cons " " c args) as (l & Hl).
    destruct (Str.chars c) as [|x xs] eqn:Hx.
    { destruct c; [done|discriminate Hx]. }
    apply Forall_cons in Hcs as [Hx1 _].
    destruct (exists_last (l:=c :: args)) as (ws & w & Hlast); [done|].
    assert (word w) as [Hw Hws].
    { rewrite Forall_forall in Hwords. apply Hwords. rewrite Hlast.
      apply elem_of_app. right. by apply list_elem_of_singleton. }
    destruct (chars_join_last " " ws w) as (l' & Hl').
    destruct (rev (Str.chars w)) as [|y ys] eqn:Hy.
    { apply (f_equal (@rev ascii)) in Hy. rewrite rev_involutive in Hy.
      destruct w; [done|discriminate Hy]. }
    assert (printable y = true) as Hy1.
    { rewrite Forall_forall in Hws. apply Hws.
      rewrite list_elem_of_In, (in_rev (Str.chars w)), Hy. by left. }
    eapply (trim_printable_ends _ x (xs ++ l) y (ys ++ rev l')); try done;
      first [by rewrite Hl | by rewrite Hlast, Hl', rev_app_distr, Hy]. }
  unfold parseInput. rewrite Htrim.
  change (Str.join " " (c :: args))
    with (Str.join (String " " "") (c :: args)).
  rewrite split_join; [|done|].
  - assert (List.filter Str.truthy (c :: args) = c :: args) as ->; [|done].
    apply List.forallb_filter_id, List.forallb_forall.
    intros w Hw%list_elem_of_In. rewrite Forall_forall in Hwords.
    apply truthy_true, Hwords, Hw.
  - eapply Forall_impl; [done|]. apply word_no_space.
Qed.

Lemma parseInput_join_witness :
  parseInput "mv report.txt archive/2024.txt"
  = (Some "mv", ["report.txt"; "archive/2024.txt"]).
Proof.
  apply (parseInput_join "mv" ["report.txt"; "archive/2024.txt"]).
  repeat constructor; try discriminate.
Defined.

Lemma not_in_chars_check c s :
  forallb (fun x => negb (Str.eqc x c)) (Str.chars s) = true ->
  c ∉ Str.chars s.
Proof.
  intros Hall Hin%list_elem_of_In. rewrite forallb_forall in Hall.
  specialize (Hall _ Hin). unfold Str.eqc in Hall.
  by rewrite bool_decide_eq_true_2 in Hall.
Qed.

(** ** The user name *)

(** X3: the name shown in the welcome and farewell lines is never empty,
    and it is [User] when no argument of the program starts with
    [--username=]. *)
Theorem username_not_empty P :
  username P <> ""
  /\ (List.find (fun a => Str.startsWith a "--username=") (drop 2 (argv P))
      = None -> username P = "User").
Proof.
  unfold username. split.
  - destruct (List.find _ _) as [a|]; [|done].
    destruct (Str.split "=" a !! 1%nat) as [v|]; [|done].
    destruct v; done.
  - by intros ->.
Qed.

(** X4: when the first argument that starts with [--username=] continues
    with [v], the name is [v] up to its first [=], and [User] when that
    text is empty. *)
Theorem username_value P v tail :
  List.find (fun a => Str.startsWith a "--username=") (drop 2 (argv P))
  = Some ("--username=" +:+ v +:+ tail) ->
  "="%char ∉ Str.chars v ->
  tail = "" \/ (exists rest, tail = String "=" rest) ->
  username P = if Str.truthy v then v else "User".
Proof.
  intros Hfind Hv Htail. unfold username. rewrite Hfind.
  change ("--username=" +:+ v +:+ tail)
    with ("--username" +:+ String "=" (v +:+ tail)).
  rewrite split_app.
  assert (Str.split "=" (v +:+ tail) !! 0%nat = Some v) as Hhead.
  { destruct Htail as [-> | (rest & ->)].
    - assert (v +:+ "" = v) as ->.
      { clear. induction v as [|c v IH]; [done|].
        by rewrite append_cons, IH. }
      by rewrite split_plain.
    - by rewrite split_app, split_plain. }
  change (Str.split "=" "--username") with ["--username"].
  simpl. by rewrite Hhead.
Qed.

Lemma username_value_witness : username host = "Ann".
Proof.
  apply (username_value host "Ann" "").
  - reflexivity.
  - by apply not_in_chars_check.
  - by left.
Defined.

(** ** The catch clause and the prompt *)

Lemma quiet_stdoutWrites evs : Forall quiet (stdoutWrites evs).
Proof.
  induction evs as [|[chunk| |e] evs IH]; simpl; try done.
  by constructor.
Qed.

(** The body of the [try] block prints no error line and no prompt. *)
Lemma run_quiet P w c args : Forall quiet (printed (run P w c args)).
Proof.
  destruct c; simpl;
    repeat match goal with
           | |- context [match ?x with _ => _ end] => destruct x
           end; simpl;
    try (apply Forall_app; split; [apply quiet_stdoutWrites|]);
    by repeat constructor.
Qed.


Lemma prompted_quiet out :
  Forall quiet out ->
  existsb (fun x => match x with Prompt => true | _ => false end) out = false.
Proof.
  induction 1 as [|x out Hx _ IH]; [done|].
  destruct x; try done; exact IH.
Qed.


(** X6: a cycle that comes back to awaiting input ends its output with
    the line of the current directory, as it is after the command, and the
    prompt, shown once; a cycle that exits or stalls shows no prompt. *)
Theorem prompt_follows_directory P w input :
  (state (handleCommand P w input) = AwaitingInput ->
   exists body,
     console (handleCommand P w input)
     = body
       ++ [ Log ("You are currently in "
                 +:+ currentDir (final (handleCommand P w input)));
            Prompt ]
     /\ Prompt ∉ body)
  /\ (forall code, state (handleCommand P w input) = Exited code ->
                   prompted (handleCommand P w input) = false)
  /\ (forall rejection,
         state (handleCommand P w input) = Stalled rejection ->
         prompted (handleCommand P w input) = false).
Proof.
  unfold handleCommand. destruct (parseInput input) as [name args].
  pose proof (run_quiet P w (select name) args) as Hq.
  assert (forall out, Forall quiet out -> Prompt ∉ out) as Hno.
  { intros out Hout Hin. rewrite Forall_forall in Hout.
    by apply (Hout _ Hin). }
  unfold prompted, conclude, showCurrentDir.
  destruct (how _) as [|fs' [err|]|e| | |]; simpl; repeat split;
    try done; try (intros; by apply prompted_quiet).
  - intros _. eexists. split; [reflexivity|by apply Hno].
  - intros _. eexists. split; [reflexivity|by apply Hno].
  - intros _. exists (printed (run P w (select name) args)
                      ++ [ErrorLine (report e)]).
    split; [by rewrite <- app_assoc|].
    intros [Hin|Hin]%elem_of_app; [by apply (Hno _ Hq)|].
    by apply list_elem_of_singleton in Hin.
Qed.

Lemma run_readOnly_fs P w c args :
  readOnly c = true -> fs (after (run P w c args)) = fs w.
Proof.
  intros Hc. destruct c; try discriminate Hc; simpl;
    repeat match goal with
           | |- context [match ?x with _ => _ end] => destruct x
           end; done.
Qed.

Lemma run_readOnly_attached P w c args :
  readOnly c = true ->
  match how (run P w c args) with Detached _ _ => False | _ => True end.
Proof.
  intros Hc. destruct c; try discriminate Hc; simpl;
    repeat (destruct_innermost; simpl); done.
Qed.

(** X7: the commands [up], [cd], [ls], [cat], [os], [hash] and [.exit],
    and every line without a known command, leave the filesystem as it
    is. *)
Theorem read_only_commands_keep_filesystem P w input :
  readOnly (select (parseInput input).1) = true ->
  fs (final (handleCommand P w input)) = fs w.
Proof.
  unfold handleCommand. destruct (parseInput input) as [name args].
  simpl. intros Hro.
  pose proof (run_readOnly_fs P w _ args Hro) as Hfs.
  pose proof (run_readOnly_attached P w _ args Hro) as Hhow.
  unfold conclude. by destruct (how _).
Qed.

Lemma read_only_commands_keep_filesystem_witness :
  fs (final (handleCommand host atHome "cat b.txt")) = disk.
Proof.
  apply (read_only_commands_keep_filesystem host atHome "cat b.txt").
  reflexivity.
Defined.

(** ** [os] *)







(** ** [.exit] and the session *)

(** X10: [.exit], with or without arguments, prints the farewell line
    with the name of the user, shows no prompt, ends the process with
    status 0 and changes nothing; no later line is handled. *)
Theorem exit_ends_session P w input args later :
  parseInput input = (Some ".exit", args) ->
  handleCommand P w input
  = Outcome w
      [Log ("Thank you for using File Manager, " +:+ username P
            +:+ ", goodbye!")]
      (Exited 0)
  /\ session P w (input :: later) = [handleCommand P w input].
Proof.
  intros Hparse. unfold session.
  by rewrite (handleCommand_unfold _ _ _ _ _ Hparse).
Qed.

Lemma exit_ends_session_witness :
  session host atHome [".exit now"; "ls"]
  = [ Outcome atHome
        [Log "Thank you for using File Manager, Ann, goodbye!"]
        (Exited 0) ].
Proof.
  destruct (exit_ends_session host atHome ".exit now" ["now"] ["ls"] eq_refl)
    as [Hexit Hsession].
  rewrite Hsession. reflexivity.
Defined.

(** ** Where a session can go *)

(** One cycle from a canonical directory below the root stays there or
    moves to the parent, and never arrives at the root. *)
Lemma cycle_stays_or_moves_up P w input segs :
  Forall segment segs -> segs <> [] -> currentDir w = absolute segs ->
  currentDir (final (handleCommand P w input)) = absolute segs
  \/ ((2 <= length segs)%nat
      /\ currentDir (final (handleCommand P w input))
         = absolute (removelast segs)).
Proof.
  intros Hsegs Hne Hcur. unfold handleCommand.
  destruct (parseInput input) as [name args].
  rewrite conclude_currentDir.
  destruct (decide (select name = Up)) as [->|Hup];
    [|left; rewrite <- Hcur; by apply run_currentDir].
  unfold run. rewrite Hcur, isRootDir_absolute by done.
  case_bool_decide as Hlen; simpl; [by left|]. right. split; [lia|].
  destruct segs as [|s init _] using rev_ind; [done|].
  apply Forall_app in Hsegs as [Hinit Hs]. rewrite Forall_singleton in Hs.
  rewrite length_app in Hlen. simpl in Hlen.
  rewrite removelast_last. apply dirname_absolute; [|done..].
  intros ->. simpl in Hlen. lia.
Qed.

Lemma session_confined P lines : forall w segs k,
  Forall segment segs -> (1 <= k <= length segs)%nat ->
  currentDir w = absolute (take k segs) ->
  Forall (fun o => exists j, (1 <= j <= length segs)%nat
                             /\ currentDir (final o) = absolute (take j segs))
         (session P w lines).
Proof.
  induction lines as [|line lines IH]; intros w segs k Hsegs Hk Hcur;
    [constructor|].
  simpl.
  assert (exists j, (1 <= j <= length segs)%nat
                    /\ currentDir (final (handleCommand P w line))
                       = absolute (take j segs)) as (j & Hj & Hcur').
  { destruct (cycle_stays_or_moves_up P w line (take k segs))
      as [Hsame | [Hlen Hup]]; try done.
    - by apply Forall_take.
    - intros Hnil%(f_equal length). rewrite length_take in Hnil.
      simpl in Hnil. lia.
    - exists k. by rewrite Hsame.
    - rewrite length_take in Hlen.
      exists (k - 1)%nat. split; [lia|]. rewrite Hup. f_equal.
      replace k with (S (k - 1)) at 1 by lia.
      apply removelast_firstn. lia. }
  constructor; [by exists j|].
  destruct (state _); try constructor. by apply (IH _ segs j).
Qed.

(** X11: a session that starts in a canonical directory below the root:
    whatever lines it handles, the current directory after each of them is
    the start directory or one of its ancestors, and never the filesystem
    root. *)
Theorem session_stays_above_start_below_root P w lines segs :
  Forall segment segs -> segs <> [] -> currentDir w = absolute segs ->
  Forall (fun o =>
            (exists j, (1 <= j <= length segs)%nat
                       /\ currentDir (final o) = absolute (take j segs))
            /\ currentDir (final o) <> filesystemRoot)
         (session P w lines).
Proof.
  intros Hsegs Hne Hcur.
  assert (1 <= length segs)%nat as Hlen.
  { destruct segs; [done|simpl; lia]. }
  pose proof (session_confined P lines w segs (length segs) Hsegs
                (conj Hlen (le_n _))) as Hall.
  rewrite firstn_all in Hall. specialize (Hall Hcur).
  eapply Forall_impl; [exact Hall|]. simpl.
  intros o (j & Hj & Ho). split; [by exists j|]. rewrite Ho.
  destruct segs as [|s segs]; [done|].
  destruct j as [|j]; [lia|]. simpl.
  apply Forall_cons in Hsegs as [[Hs _] _]. by apply absolute_not_root.
Qed.

Lemma session_stays_above_start_below_root_witness :
  Forall (fun o =>
            (exists j, (1 <= j <= 2)%nat
                       /\ currentDir (final o)
                          = absolute (take j ["home"; "ann"]))
            /\ currentDir (final o) <> "/")
         (session host atHome ["up"; "cd /"; "up"; "cd .."]).
Proof.
  apply (session_stays_above_start_below_root host atHome
           ["up"; "cd /"; "up"; "cd .."] ["home"; "ann"]).
  - repeat constructor; by apply segment_check.
  - discriminate.
  - reflexivity.
Defined.

(** X12: when the current directory holds no separator (a relative name,
    or the empty text), [isRootDir] takes it for a root and [up] changes
    nothing. *)
Theorem up_without_separator P w input args :
  parseInput input = (Some "up", args) ->
  Str.slash ∉ Str.chars (currentDir w) ->
  isRootDir (currentDir w) = true
  /\ final (handleCommand P w input) = w.
Proof.
  intros Hparse Hno.
  assert (isRootDir (currentDir w) = true) as Hroot.
  { unfold isRootDir, Path.parse.
    destruct (currentDir w) as [|c rest] eqn:Hdir; [done|].
    assert (Str.eqc c Str.slash = false) as ->.
    { unfold Str.eqc. apply bool_decide_eq_false_2. intros ->.
      apply Hno. unfold Str.chars. simpl. by left. }
    unfold Path.beforeLastSegment.
    assert (Str.slash ∉ rev (Str.chars (String c rest))) as Hrev.
    { by rewrite list_elem_of_In, <- in_rev, <- list_elem_of_In. }
    rewrite <- (app_nil_r (rev _)), skipSeparators_segment, app_nil_r;
      [|unfold Str.chars; simpl; intros H; by apply app_eq_nil in H as [_ ?]
       |done].
    by rewrite skipSegment_none. }
  split; [done|].
  rewrite (handleCommand_unfold _ _ _ _ _ Hparse).
  change (select (Some "up")) with Up. unfold run. rewrite Hroot.
  by destruct w.
Qed.

Lemma up_without_separator_witness :
  final (handleCommand host (World "ann" disk) "up") = World "ann" disk.
Proof.
  apply (up_without_separator host (World "ann" disk) "up" []).
  - reflexivity.
  - by apply not_in_chars_check.
Defined.

(** ** Lemmas on the filesystem *)

Lemma find_inr fs p n :
  Fs.find fs p = inr n ->
  Str.truthy p = true /\ Fs.nodes fs !! Fs.key fs p = Some n
  /\ (Path.endsWithSlash p = true -> Fs.isDirectory n = true).
Proof.
  unfold Fs.find. destruct (Str.truthy p); [|done]. simpl.
  destruct (Fs.nodes fs !! Fs.key fs p) as [n'|]; [|done].
  destruct (Path.endsWithSlash p); simpl.
  - destruct (Fs.isDirectory n') eqn:Hd; simpl; [|done]. by intros [= <-].
  - by intros [= <-].
Qed.

Lemma withNodes_withNodes fs m1 m2 :
  Fs.withNodes (Fs.withNodes fs m1) m2 = Fs.withNodes fs m2.
Proof. reflexivity. Qed.

(** A lookup sees the nodes at the key of its path only. *)
Lemma find_withNodes fs m p :
  m !! Fs.key fs p = Fs.nodes fs !! Fs.key fs p ->
  Fs.find (Fs.withNodes fs m) p = Fs.find fs p.
Proof.
  intros Hm. unfold Fs.find, Fs.withNodes, Fs.key. simpl.
  fold (Fs.key fs p). by rewrite Hm.
Qed.

Lemma find_missing fs m p :
  Str.truthy p = true -> m !! Fs.key fs p = None ->
  Fs.find (Fs.withNodes fs m) p = inl Fs.ENOENT.
Proof.
  intros Hp Hm. unfold Fs.find, Fs.withNodes, Fs.key. simpl.
  fold (Fs.key fs p). by rewrite Hp, Hm.
Qed.

Lemma find_file_at fs m p content r w :
  Str.truthy p = true -> Path.endsWithSlash p = false ->
  m !! Fs.key fs p = Some (Fs.File content r w) ->
  Fs.find (Fs.withNodes fs m) p = inr (Fs.File content r w).
Proof.
  intros Hp Hs Hm. unfold Fs.find, Fs.withNodes, Fs.key. simpl.
  fold (Fs.key fs p). by rewrite Hp, Hm, Hs.
Qed.

Lemma openWrite_path fs p fs' :
  Fs.openWrite fs p = inr fs' ->
  Str.truthy p = true /\ Path.endsWithSlash p = false.
Proof.
  unfold Fs.openWrite. destruct (Str.truthy p); [|done]. simpl.
  destruct (Fs.nodes fs !! Fs.key fs p) as [[c r w| |]|]; try done;
    by destruct (Path.endsWithSlash p).
Qed.

Lemma openWrite_fresh fs p :
  Str.truthy p = true -> Path.endsWithSlash p = false ->
  Fs.nodes fs !! Fs.key fs p = None ->
  Fs.nodes fs !! Path.dirname (Fs.key fs p) = Some (Fs.Dir true) ->
  Fs.openWrite fs p
  = inr (Fs.withNodes fs
           (<[Fs.key fs p := Fs.File [] true true]> (Fs.nodes fs))).
Proof.
  intros Hp Hs Hk Hd. unfold Fs.openWrite. by rewrite Hp, Hk, Hs, Hd.
Qed.

Lemma openWrite_fresh_inv fs p fs' :
  Fs.openWrite fs p = inr fs' ->
  Fs.nodes fs !! Fs.key fs p = None ->
  Fs.nodes fs !! Path.dirname (Fs.key fs p) = Some (Fs.Dir true).
Proof.
  unfold Fs.openWrite. destruct (Str.truthy p); [|done]. simpl.
  intros Hopen Hk. rewrite Hk in Hopen.
  destruct (Path.endsWithSlash p); [done|].
  by destruct (Fs.nodes fs !! Path.dirname (Fs.key fs p)) as [[| [|] |]|].
Qed.

Lemma join2_truthy a b : Str.truthy (Path.join2 a b) = true.
Proof.
  assert (forall p, Str.truthy (Path.normalize p) = true) as Hn.
  { intros p. unfold Path.normalize.
    destruct (Str.truthy p); simpl; [|done].
    destruct (Path.normalizeString p _) as [|c n] eqn:Hns; simpl.
    - by destruct (Path.isAbsolute p), (Path.endsWithSlash p).
    - by destruct (Path.isAbsolute p), (Path.endsWithSlash p). }
  unfold Path.join2. by destruct (Str.truthy a), (Str.truthy b).
Qed.

Lemma concat_groupsFuel {A} fuel n (l : list A) :
  concat (groupsFuel fuel n l) = l.
Proof.
  revert l. induction fuel as [|fuel IH]; intros l; destruct l as [|x l];
    simpl; try done.
  - by rewrite app_nil_r.
  - rewrite IH. destruct n; [done|]. simpl. by rewrite take_drop.
Qed.

(** ** [add] on a free path *)

(** X13: [add] on a path that is free, in a directory that exists and
    accepts entries, creates an empty file there that can be read and
    written, and leaves every other path as it was. *)
Theorem add_creates_empty_file P w input a rest :
  parseInput input = (Some "add", a :: rest) ->
  Fs.stat (fs w) (Path.join2 (currentDir w) a) = inl Fs.ENOENT ->
  Path.endsWithSlash (Path.join2 (currentDir w) a) = false ->
  Fs.nodes (fs w)
    !! Path.dirname (Fs.key (fs w) (Path.join2 (currentDir w) a))
  = Some (Fs.Dir true) ->
  errors (handleCommand P w input) = []
  /\ state (handleCommand P w input) = AwaitingInput
  /\ Fs.stat (fs (final (handleCommand P w input)))
             (Path.join2 (currentDir w) a)
     = inr (Fs.File [] true true)
  /\ forall p,
       Fs.key (fs w) p <> Fs.key (fs w) (Path.join2 (currentDir w) a) ->
       Fs.stat (fs (final (handleCommand P w input))) p = Fs.stat (fs w) p.
Proof.
  intros Hparse Hstat Hslash Hdir.
  pose proof (parseInput_truthy _ _ _ Hparse) as Hargs.
  apply Forall_cons in Hargs as [Ha _].
  pose proof (join2_truthy (currentDir w) a) as Ht.
  set (target := Path.join2 (currentDir w) a) in *.
  assert (Fs.nodes (fs w) !! Fs.key (fs w) target = None) as Hfree.
  { unfold Fs.stat, Fs.find in Hstat. rewrite Ht in Hstat. simpl in Hstat.
    destruct (Fs.nodes (fs w) !! Fs.key (fs w) target); [|done].
    by destruct (_ && _). }
  rewrite (handleCommand_unfold _ _ _ _ _ Hparse).
  change (select (Some "add")) with Add. unfold run.
  rewrite (given_cons_0 _ _ Ha). fold target.
  unfold Fs.writeFile. rewrite (openWrite_fresh _ _ Ht Hslash Hfree Hdir).
  unfold Fs.append, Fs.stat. simpl.
  change (Fs.key (Fs.withNodes (fs w) _) target) with (Fs.key (fs w) target).
  rewrite alter_insert_eq, withNodes_withNodes. repeat split.
  - apply find_file_at; [done..|]. apply lookup_insert_eq.
  - intros p Hp. apply find_withNodes. by rewrite lookup_insert_ne.
Qed.

Lemma add_creates_empty_file_witness :
  Fs.stat (fs (final (handleCommand host atHome "add notes.txt")))
          "/home/ann/notes.txt"
  = inr (Fs.File [] true true)
  /\ Fs.stat (fs (final (handleCommand host atHome "add notes.txt")))
             "/home/ann/b.txt"
     = inr (Fs.File (bytes "abc") true true).
Proof.
  destruct (add_creates_empty_file host atHome "add notes.txt" "notes.txt" []
              eq_refl eq_refl eq_refl eq_refl) as (_ & _ & Hnew & Hframe).
  split; [exact Hnew|].
  rewrite (Hframe "/home/ann/b.txt"); [reflexivity|discriminate].
Defined.

(** X14: [add] does not create directories: on a free path whose
    directory does not exist it prints [Operation failed] and changes
    nothing. *)
Theorem add_needs_directory P w input a rest :
  parseInput input = (Some "add", a :: rest) ->
  Fs.nodes (fs w) !! Fs.key (fs w) (Path.join2 (currentDir w) a) = None ->
  Fs.nodes (fs w)
    !! Path.dirname (Fs.key (fs w) (Path.join2 (currentDir w) a)) = None ->
  errors (handleCommand P w input) = ["Operation failed"]
  /\ final (handleCommand P w input) = w.
Proof.
  intros Hparse Hfree Hdir.
  pose proof (parseInput_truthy _ _ _ Hparse) as Hargs.
  apply Forall_cons in Hargs as [Ha _].
  pose proof (join2_truthy (currentDir w) a) as Ht.
  rewrite (handleCommand_unfold _ _ _ _ _ Hparse).
  change (select (Some "add")) with Add. unfold run.
  rewrite (given_cons_0 _ _ Ha).
  unfold Fs.writeFile, Fs.openWrite. rewrite Ht, Hfree, Hdir. simpl.
  destruct (Path.endsWithSlash _); by rewrite errors_thrown, report_system.
Qed.

Lemma add_needs_directory_witness :
  errors (handleCommand host atHome "add drafts/notes.txt")
  = ["Operation failed"]
  /\ final (handleCommand host atHome "add drafts/notes.txt") = atHome.
Proof.
  apply (add_needs_directory host atHome "add drafts/notes.txt"
           "drafts/notes.txt" []); reflexivity.
Defined.

(** ** [rm] *)

(** X15: [rm] on something that is not a directory, in a directory that
    lets entries go, removes that path and no other; the same line once
    more prints [Operation failed] and changes nothing. *)
Theorem rm_removes_once P w input a rest n :
  parseInput input = (Some "rm", a :: rest) ->
  Fs.stat (fs w) (Path.resolve (Fs.cwd (fs w)) (currentDir w) a) = inr n ->
  Fs.isDirectory n = false ->
  Fs.nodes (fs w)
    !! Path.dirname
         (Fs.key (fs w) (Path.resolve (Fs.cwd (fs w)) (currentDir w) a))
  = Some (Fs.Dir true) ->
  errors (handleCommand P w input) = []
  /\ state (handleCommand P w input) = AwaitingInput
  /\ Fs.stat (fs (final (handleCommand P w input)))
             (Path.resolve (Fs.cwd (fs w)) (currentDir w) a)
     = inl Fs.ENOENT
  /\ (forall p,
         Fs.key (fs w) p
         <> Fs.key (fs w) (Path.resolve (Fs.cwd (fs w)) (currentDir w) a) ->
         Fs.stat (fs (final (handleCommand P w input))) p = Fs.stat (fs w) p)
  /\ errors (handleCommand P (final (handleCommand P w input)) input)
     = ["Operation failed"]
  /\ final (handleCommand P (final (handleCommand P w input)) input)
     = final (handleCommand P w input).
Proof.
  intros Hparse Hstat Hkind Hdir.
  pose proof (parseInput_truthy _ _ _ Hparse) as Hargs.
  apply Forall_cons in Hargs as [Ha _].
  set (target := Path.resolve (Fs.cwd (fs w)) (currentDir w) a) in *.
  destruct (find_inr _ _ _ Hstat) as (Ht & Hnode & _).
  assert (handleCommand P w input
          = Outcome (World (currentDir w)
                       (Fs.withNodes (fs w)
                          (delete (Fs.key (fs w) target) (Fs.nodes (fs w)))))
              (showCurrentDir w) AwaitingInput) as Hfirst.
  { rewrite (handleCommand_unfold _ _ _ _ _ Hparse).
    change (select (Some "rm")) with Rm. unfold run.
    rewrite (given_cons_0 _ _ Ha). fold target.
    unfold Fs.stat in Hstat. unfold Fs.unlink. rewrite Hstat, Hdir.
    by destruct n. }
  assert (Fs.find (Fs.withNodes (fs w)
                     (delete (Fs.key (fs w) target) (Fs.nodes (fs w))))
                  target = inl Fs.ENOENT) as Hgone.
  { apply find_missing; [done|apply lookup_delete_eq]. }
  rewrite Hfirst. simpl. repeat split; try done.
  - intros p Hp. apply find_withNodes. by rewrite lookup_delete_ne.
  - rewrite (handleCommand_unfold _ _ _ _ _ Hparse).
    change (select (Some "rm")) with Rm. unfold run.
    rewrite (given_cons_0 _ _ Ha). simpl. fold target.
    unfold Fs.unlink. rewrite Hgone.
    by rewrite errors_thrown, report_system.
  - rewrite (handleCommand_unfold _ _ _ _ _ Hparse).
    change (select (Some "rm")) with Rm. unfold run.
    rewrite (given_cons_0 _ _ Ha). simpl. fold target.
    unfold Fs.unlink. by rewrite Hgone.
Qed.

Lemma rm_removes_once_witness :
  Fs.stat (fs (final (handleCommand host atHome "rm z.txt")))
          "/home/ann/z.txt" = inl Fs.ENOENT
  /\ errors (handleCommand host
               (final (handleCommand host atHome "rm z.txt")) "rm z.txt")
     = ["Operation failed"].
Proof.
  destruct (rm_removes_once host atHome "rm z.txt" "z.txt" []
              (Fs.File [] true true) eq_refl eq_refl eq_refl eq_refl)
    as (_ & _ & Hgone & _ & Hagain & _).
  split; [exact Hgone|exact Hagain].
Defined.

(** X16: [rm] removes no directory: on a directory it prints
    [Operation failed] and changes nothing. *)
Theorem rm_refuses_directory P w input a rest writable :
  parseInput input = (Some "rm", a :: rest) ->
  Fs.stat (fs w) (Path.resolve (Fs.cwd (fs w)) (currentDir w) a)
  = inr (Fs.Dir writable) ->
  errors (handleCommand P w input) = ["Operation failed"]
  /\ final (handleCommand P w input) = w.
Proof.
  intros Hparse Hstat.
  pose proof (parseInput_truthy _ _ _ Hparse) as Hargs.
  apply Forall_cons in Hargs as [Ha _].
  rewrite (handleCommand_unfold _ _ _ _ _ Hparse).
  change (select (Some "rm")) with Rm. unfold run.
  rewrite (given_cons_0 _ _ Ha).
  unfold Fs.stat in Hstat. unfold Fs.unlink. rewrite Hstat.
  by rewrite errors_thrown, report_system.
Qed.

Lemma rm_refuses_directory_witness :
  errors (handleCommand host atHome "rm A") = ["Operation failed"]
  /\ final (handleCommand host atHome "rm A") = atHome.
Proof.
  apply (rm_refuses_directory host atHome "rm A" "A" [] true); reflexivity.
Defined.

(** ** [cat] *)

Lemma stdoutWrites_data chunks :
  stdoutWrites (map Stream.Data chunks ++ [Stream.End]) = map Stdout chunks.
Proof. induction chunks as [|c chunks IH]; simpl; [done|]. by rewrite IH. Qed.

(** X17: [cat] on a file that can be read writes the bytes of the file to
    the standard output, all of them and in their order, then an empty
    line and the prompt; it changes nothing. *)
Theorem cat_prints_content P w input a rest content :
  parseInput input = (Some "cat", a :: rest) ->
  Fs.openRead (fs w) (Path.resolve (Fs.cwd (fs w)) (currentDir w) a)
  = inr content ->
  exists chunks,
    concat chunks = content
    /\ console (handleCommand P w input)
       = map Stdout chunks ++ Log "" :: showCurrentDir w
    /\ final (handleCommand P w input) = w
    /\ state (handleCommand P w input) = AwaitingInput.
Proof.
  intros Hparse Hopen.
  pose proof (parseInput_truthy _ _ _ Hparse) as Hargs.
  apply Forall_cons in Hargs as [Ha _].
  exists (groups Stream.highWaterMark content).
  split; [apply concat_groupsFuel|].
  rewrite (handleCommand_unfold _ _ _ _ _ Hparse).
  change (select (Some "cat")) with Cat. unfold run.
  rewrite (given_cons_0 _ _ Ha). unfold Stream.readEvents. rewrite Hopen.
  rewrite failure_data, stdoutWrites_data. unfold conclude. simpl.
  by rewrite <- app_assoc.
Qed.

Lemma cat_prints_content_witness :
  exists chunks,
    concat chunks = bytes "abc"
    /\ console (handleCommand host atHome "cat b.txt")
       = map Stdout chunks ++ Log "" :: showCurrentDir atHome
    /\ final (handleCommand host atHome "cat b.txt") = atHome
    /\ state (handleCommand host atHome "cat b.txt") = AwaitingInput.
Proof.
  apply (cat_prints_content host atHome "cat b.txt" "b.txt" []); reflexivity.
Defined.

(** ** Pipelines: [cp], [compress], [decompress] *)

(** A pipeline between two different files whose source can be read and
    whose sink can be opened leaves at the sink what the stage emitted, and
    touches no other path. *)
Lemma pipeline_writes fs src dst stage content opened :
  Fs.key fs src <> Fs.key fs dst ->
  Fs.openRead fs src = inr content ->
  Fs.openWrite fs dst = inr opened ->
  exists r wr,
    Stream.pipeline fs src stage dst
    = (Fs.withNodes fs
         (<[Fs.key fs dst := Fs.File (stage content).1 r wr]> (Fs.nodes fs)),
       (stage content).2)
    /\ (Fs.nodes fs !! Fs.key fs dst = None -> r = true).
Proof.
  intros Hne Hread Hwrite.
  destruct (openRead_inr _ _ _ Hread) as (w0 & Hfind).
  destruct (find_file _ _ _ _ _ Hfind) as (Hsrc & Hnode & Hslash).
  assert (exists r wr,
             opened = Fs.withNodes fs
                        (<[Fs.key fs dst := Fs.File [] r wr]> (Fs.nodes fs))
             /\ (Fs.nodes fs !! Fs.key fs dst = None -> r = true))
    as (r & wr & -> & Hfresh).
  { revert Hwrite. unfold Fs.openWrite.
    destruct (Str.truthy dst); [|done]. simpl.
    destruct (Fs.nodes fs !! Fs.key fs dst) as [[c r w| |]|]; try done.
    - destruct (Path.endsWithSlash dst); [done|]. destruct w; [|done].
      intros [= <-]. by exists r, true.
    - destruct (Path.endsWithSlash dst); [done|].
      destruct (Fs.nodes fs !! Path.dirname (Fs.key fs dst))
        as [[| [|] |]|]; try done.
      intros [= <-]. by exists true, true. }
  exists r, wr. split; [|done].
  unfold Stream.pipeline. rewrite Hread, Hwrite.
  assert (Fs.openRead
            (Fs.withNodes fs
               (<[Fs.key fs dst := Fs.File [] r wr]> (Fs.nodes fs)))
            src = inr content) as ->.
  { unfold Fs.openRead. rewrite find_withNodes, Hfind; [done|].
    by rewrite lookup_insert_ne. }
  destruct (stage content) as [out err]. simpl.
  unfold Fs.append. simpl.
  change (Fs.key (Fs.withNodes fs _) dst) with (Fs.key fs dst).
  by rewrite alter_insert_eq, withNodes_withNodes.
Qed.

(** X18: [cp] between two different files, when the source can be read
    and the destination can be opened for writing: the cycle comes back
    to the prompt without an error, the destination holds the bytes of
    the source, and the source and every other path are as before. *)
Theorem cp_copies_content P w input a b rest content opened :
  parseInput input = (Some "cp", a :: b :: rest) ->
  Fs.key (fs w) (Path.resolve (Fs.cwd (fs w)) (currentDir w) a)
  <> Fs.key (fs w) (Path.resolve (Fs.cwd (fs w)) (currentDir w) b) ->
  Fs.openRead (fs w) (Path.resolve (Fs.cwd (fs w)) (currentDir w) a)
  = inr content ->
  Fs.openWrite (fs w) (Path.resolve (Fs.cwd (fs w)) (currentDir w) b)
  = inr opened ->
  errors (handleCommand P w input) = []
  /\ state (handleCommand P w input) = AwaitingInput
  /\ (exists r wr,
         Fs.stat (fs (final (handleCommand P w input)))
                 (Path.resolve (Fs.cwd (fs w)) (currentDir w) b)
         = inr (Fs.File content r wr))
  /\ forall p,
       Fs.key (fs w) p
       <> Fs.key (fs w) (Path.resolve (Fs.cwd (fs w)) (currentDir w) b) ->
       Fs.stat (fs (final (handleCommand P w input))) p = Fs.stat (fs w) p.
Proof.
  intros Hparse Hne Hread Hwrite.
  pose proof (parseInput_truthy _ _ _ Hparse) as Hargs.
  apply Forall_cons in Hargs as [Ha Hargs].
  apply Forall_cons in Hargs as [Hb _].
  destruct (openWrite_path _ _ _ Hwrite) as [Ht Hs].
  destruct (pipeline_writes _ _ _ Stream.passThrough _ _ Hne Hread Hwrite)
    as (r & wr & Hpipe & _).
  rewrite (handleCommand_unfold _ _ _ _ _ Hparse).
  change (select (Some "cp")) with Cp. unfold run.
  rewrite (given_cons_0 _ _ Ha), (given_cons_1 _ _ _ Hb), Hpipe.
  simpl. repeat split.
  - exists r, wr. apply find_file_at; [done..|apply lookup_insert_eq].
  - intros p Hp. apply find_withNodes. by rewrite lookup_insert_ne.
Qed.

Lemma cp_copies_content_witness :
  Fs.stat (fs (final (handleCommand host atHome "cp b.txt copy.txt")))
          "/home/ann/copy.txt"
  = inr (Fs.File (bytes "abc") true true)
  /\ Fs.stat (fs (final (handleCommand host atHome "cp b.txt copy.txt")))
             "/home/ann/b.txt"
     = inr (Fs.File (bytes "abc") true true).
Proof.
  destruct (cp_copies_content host atHome "cp b.txt copy.txt" "b.txt"
              "copy.txt" [] (bytes "abc")
              (Fs.withNodes disk
                 (<["/home/ann/copy.txt" := Fs.File [] true true]>
                    (Fs.nodes disk))))
    as (_ & _ & (r & wr & Hdst) & Hframe);
    [reflexivity|discriminate|reflexivity|reflexivity|].
  split; [reflexivity|].
  rewrite (Hframe "/home/ann/b.txt"); [reflexivity|discriminate].
Defined.

Lemma stat_missing fs p opened :
  Fs.openWrite fs p = inr opened ->
  Fs.stat fs p = inl Fs.ENOENT ->
  Fs.nodes fs !! Fs.key fs p = None.
Proof.
  intros [Ht _]%openWrite_path. unfold Fs.stat, Fs.find. rewrite Ht. simpl.
  destruct (Fs.nodes fs !! Fs.key fs p); [|done]. by destruct (_ && _).
Qed.

(** X19: on a host whose decoder undoes its encoder, [compress] of a
    readable file into a new file, followed (once it has completed) by
    [decompress] of that file into another new file, leaves there the
    bytes of the first file, which is unchanged; both cycles come back to
    the prompt without an error. *)
Theorem compress_then_decompress_restores
        P w line1 line2 a b c rest1 rest2 content opened1 opened2 :
  (forall data, brotliDecompress P (brotliCompress P data) = (data, true)) ->
  parseInput line1 = (Some "compress", a :: b :: rest1) ->
  parseInput line2 = (Some "decompress", b :: c :: rest2) ->
  Fs.openRead (fs w) (Path.resolve (Fs.cwd (fs w)) (currentDir w) a)
  = inr content ->
  Fs.stat (fs w) (Path.resolve (Fs.cwd (fs w)) (currentDir w) b)
  = inl Fs.ENOENT ->
  Fs.openWrite (fs w) (Path.resolve (Fs.cwd (fs w)) (currentDir w) b)
  = inr opened1 ->
  Fs.stat (fs w) (Path.resolve (Fs.cwd (fs w)) (currentDir w) c)
  = inl Fs.ENOENT ->
  Fs.openWrite (fs w) (Path.resolve (Fs.cwd (fs w)) (currentDir w) c)
  = inr opened2 ->
  Fs.key (fs w) (Path.resolve (Fs.cwd (fs w)) (currentDir w) b)
  <> Fs.key (fs w) (Path.resolve (Fs.cwd (fs w)) (currentDir w) c) ->
  errors (handleCommand P w line1) = []
  /\ state (handleCommand P w line1) = AwaitingInput
  /\ errors (handleCommand P (final (handleCommand P w line1)) line2) = []
  /\ state (handleCommand P (final (handleCommand P w line1)) line2)
     = AwaitingInput
  /\ Fs.openRead
       (fs (final (handleCommand P (final (handleCommand P w line1)) line2)))
       (Path.resolve (Fs.cwd (fs w)) (currentDir w) c)
     = inr content
  /\ Fs.openRead
       (fs (final (handleCommand P (final (handleCommand P w line1)) line2)))
       (Path.resolve (Fs.cwd (fs w)) (currentDir w) a)
     = inr content.
Proof.
  intros Hcodec Hparse1 Hparse2 Hread Hnew1 Hopen1 Hnew2 Hopen2 Hne.
  pose proof (parseInput_truthy _ _ _ Hparse1) as Hargs.
  apply Forall_cons in Hargs as [Ha Hargs].
  apply Forall_cons in Hargs as [Hb _].
  pose proof (parseInput_truthy _ _ _ Hparse2) as Hargs.
  apply Forall_cons in Hargs as [_ Hargs].
  apply Forall_cons in Hargs as [Hc _].
  set (src := Path.resolve (Fs.cwd (fs w)) (currentDir w) a) in *.
  set (mid := Path.resolve (Fs.cwd (fs w)) (currentDir w) b) in *.
  set (dst := Path.resolve (Fs.cwd (fs w)) (currentDir w) c) in *.
  pose proof (stat_missing _ _ _ Hopen1 Hnew1) as Hfree1.
  pose proof (stat_missing _ _ _ Hopen2 Hnew2) as Hfree2.
  destruct (openWrite_path _ _ _ Hopen1) as [Ht1 Hs1].
  destruct (openWrite_path _ _ _ Hopen2) as [Ht2 Hs2].
  pose proof (openWrite_fresh_inv _ _ _ Hopen2 Hfree2) as Hdir2.
  destruct (openRead_inr _ _ _ Hread) as (w0 & Hfind).
  destruct (find_file _ _ _ _ _ Hfind) as (Hsrc & Hnode & Hslash).
  assert (Fs.key (fs w) src <> Fs.key (fs w) mid) as Hne1.
  { intros Heq. rewrite Heq in Hnode. congruence. }
  assert (Fs.key (fs w) src <> Fs.key (fs w) dst) as Hne2.
  { intros Heq. rewrite Heq in Hnode. congruence. }
  destruct (pipeline_writes _ _ _ (compressor P) _ _ Hne1 Hread Hopen1)
    as (r1 & wr1 & Hpipe1 & Hr1).
  rewrite (Hr1 Hfree1) in Hpipe1. clear Hr1. simpl in Hpipe1.
  set (packed := brotliCompress P content) in *.
  set (fs1 := Fs.withNodes (fs w)
                (<[Fs.key (fs w) mid := Fs.File packed true wr1]>
                   (Fs.nodes (fs w)))) in *.
  assert (handleCommand P w line1
          = Outcome (World (currentDir w) fs1) (showCurrentDir w)
              AwaitingInput) as Hfirst.
  { rewrite (handleCommand_unfold _ _ _ _ _ Hparse1).
    change (select (Some "compress")) with Compress. unfold run.
    rewrite (given_cons_0 _ _ Ha), (given_cons_1 _ _ _ Hb).
    fold src mid. by rewrite Hpipe1. }
  rewrite Hfirst. simpl final.
  assert (Fs.openRead fs1 mid = inr packed) as Hread1.
  { unfold Fs.openRead, fs1.
    rewrite (find_file_at _ _ _ packed true wr1); try done.
    apply lookup_insert_eq. }
  assert (Fs.openWrite fs1 dst
          = inr (Fs.withNodes fs1
                   (<[Fs.key fs1 dst := Fs.File [] true true]>
                      (Fs.nodes fs1)))) as Hopen2'.
  { apply openWrite_fresh; try done.
    - unfold fs1. simpl. change (Fs.key (Fs.withNodes _ _) dst)
        with (Fs.key (fs w) dst). by rewrite lookup_insert_ne.
    - unfold fs1. simpl. change (Fs.key (Fs.withNodes _ _) dst)
        with (Fs.key (fs w) dst). rewrite lookup_insert_ne; [done|].
      intros Heq. rewrite <- Heq in Hdir2. congruence. }
  assert (Fs.key fs1 mid <> Fs.key fs1 dst) as Hne'.
  { exact Hne. }
  destruct (pipeline_writes _ _ _ (decompressor P) _ _ Hne' Hread1 Hopen2')
    as (r2 & wr2 & Hpipe2 & Hr2).
  assert (Fs.nodes fs1 !! Fs.key fs1 dst = None) as Hfree2'.
  { unfold fs1. simpl. change (Fs.key (Fs.withNodes _ _) dst)
      with (Fs.key (fs w) dst). by rewrite lookup_insert_ne. }
  rewrite (Hr2 Hfree2') in Hpipe2. clear Hr2.
  unfold decompressor in Hpipe2. unfold packed in Hpipe2.
  rewrite Hcodec in Hpipe2. simpl in Hpipe2.
  rewrite (handleCommand_unfold _ _ _ _ _ Hparse2).
  change (select (Some "decompress")) with Decompress. unfold run.
  rewrite (given_cons_0 _ _ Hb), (given_cons_1 _ _ _ Hc).
  simpl currentDir. simpl fs.
  change (Fs.cwd fs1) with (Fs.cwd (fs w)). fold mid dst.
  unfold decompressor, packed. rewrite Hpipe2. simpl.
  repeat split.
  - unfold Fs.openRead.
    rewrite (find_file_at _ _ _ content true wr2); try done.
    apply lookup_insert_eq.
  - unfold Fs.openRead.
    change (Fs.withNodes fs1 ?m) with (Fs.withNodes (fs w) m).
    change (Fs.key fs1 dst) with (Fs.key (fs w) dst).
    rewrite find_withNodes, Hfind; [done|].
    by rewrite !lookup_insert_ne.
Qed.

Lemma compress_then_decompress_restores_witness :
  Fs.openRead
    (fs (final (handleCommand host
                  (final (handleCommand host atHome "compress b.txt b.br"))
                  "decompress b.br restored.txt")))
    "/home/ann/restored.txt"
  = inr (bytes "abc").
Proof.
  destruct (compress_then_decompress_restores host atHome
              "compress b.txt b.br" "decompress b.br restored.txt"
              "b.txt" "b.br" "restored.txt" [] [] (bytes "abc")
              (Fs.withNodes disk
                 (<["/home/ann/b.br" := Fs.File [] true true]>
                    (Fs.nodes disk)))
              (Fs.withNodes disk
                 (<["/home/ann/restored.txt" := Fs.File [] true true]>
                    (Fs.nodes disk))))
    as (_ & _ & _ & _ & Hrestored & _);
    [done|reflexivity..|discriminate|exact Hrestored].
Defined.



(** ** [ls], in general *)

Lemma codeUnitCompare_total a b :
  codeUnitCompare a b <= 0 \/ codeUnitCompare b a <= 0.
Proof.
  unfold codeUnitCompare. rewrite (String.compare_antisym a b).
  destruct (String.compare b a); simpl; lia.
Qed.

(** X21: [ls] in a directory that can be read prints one table: a row
    for each directory and each regular file of the directory, tagged
    with its type, and nothing for entries of another kind; on a host
    whose collation compares any two names, the rows are in the order
    of their names.  The arguments are ignored and nothing changes. *)
Theorem ls_prints_sorted_entries P w input args items :
  parseInput input = (Some "ls", args) ->
  (forall a b, localeCompare P a b <= 0 \/ localeCompare P b a <= 0) ->
  Fs.readdir (fs w) (currentDir w) = inr items ->
  exists rows,
    console (handleCommand P w input)
    = Table (map row rows) :: showCurrentDir w
    /\ rows
       ≡ₚ map (fun item => Entry item.1 "directory")
            (List.filter (fun item => Fs.isDirectory item.2) items)
          ++ map (fun item => Entry item.1 "file")
               (List.filter (fun item => Fs.isFile item.2) items)
    /\ Sorted (fun a b => localeCompare P (name a) (name b) <= 0) rows
    /\ final (handleCommand P w input) = w.
Proof.
  intros Hparse Htotal Hread. exists (listing P items).
  rewrite (handleCommand_unfold _ _ _ _ _ Hparse).
  change (select (Some "ls")) with Ls. unfold run. rewrite Hread.
  repeat split.
  - apply listing_Permutation.
  - by apply listing_Sorted.
Qed.

Lemma ls_prints_sorted_entries_witness :
  exists rows,
    console (handleCommand host atHome "ls -l")
    = Table (map row rows) :: showCurrentDir atHome
    /\ rows
       ≡ₚ [Entry "A" "directory"; Entry "z.txt" "file"; Entry "b.txt" "file"]
    /\ Sorted (fun a b => codeUnitCompare (name a) (name b) <= 0) rows
    /\ final (handleCommand host atHome "ls -l") = atHome.
Proof.
  apply (ls_prints_sorted_entries host atHome "ls -l" ["-l"]
           [ ("A", Fs.Dir true); ("z.txt", Fs.File [] true true);
             ("b.txt", Fs.File (bytes "abc") true true) ]).
  - reflexivity.
  - apply codeUnitCompare_total.
  - vm_compute. reflexivity.
Defined.

(** ** The form of a digest *)

Lemma hexDigit_hexChar n : hexChar (Sha256.hexDigit n) = true.
Proof.
  unfold Sha256.hexDigit. generalize (Z.to_nat n). intros k.
  do 16 (destruct k as [|k]; [reflexivity|]). by destruct k.
Qed.

Lemma hex_form bs :
  String.length (Sha256.hex bs) = (2 * length bs)%nat
  /\ Forall (fun c => hexChar c = true) (Str.chars (Sha256.hex bs)).
Proof.
  induction bs as [|b bs [IHlen IHall]]; [by split; [|constructor]|].
  unfold Sha256.hex in *. simpl foldr. unfold Sha256.hexOfByte.
  rewrite !append_cons, append_nil_l.
  set (tail := foldr _ "" bs) in *. split.
  - simpl. rewrite IHlen. lia.
  - unfold Str.chars in *. simpl.
    repeat (constructor; [apply hexDigit_hexChar|]). done.
Qed.

Lemma digest_length msg : length (Sha256.digest msg) = 32%nat.
Proof. reflexivity. Qed.

(** X22: for every file that can be read, whatever it holds, [hash]
    prints one line of 64 lowercase hexadecimal digits and changes
    nothing. *)
Theorem hash_prints_64_hex_digits P w input a rest content :
  parseInput input = (Some "hash", a :: rest) ->
  Fs.openRead (fs w) (Path.resolve (Fs.cwd (fs w)) (currentDir w) a)
  = inr content ->
  exists line,
    console (handleCommand P w input) = Log line :: showCurrentDir w
    /\ String.length line = 64%nat
    /\ Forall (fun c => hexChar c = true) (Str.chars line)
    /\ final (handleCommand P w input) = w.
Proof.
  intros Hparse Hopen.
  pose proof (hash_prints P w input a rest content Hparse Hopen) as Hout.
  eexists. split; [exact Hout|].
  unfold Sha256.digestHex.
  destruct (hex_form (Sha256.digest
                        (concat (map twice
                                   (groups Stream.highWaterMark content)))))
    as [Hlen Hall].
  rewrite digest_length in Hlen. repeat split; [done..|].
  pose proof (parseInput_truthy _ _ _ Hparse) as Hargs.
  apply Forall_cons in Hargs as [Ha _].
  rewrite (handleCommand_unfold _ _ _ _ _ Hparse).
  change (select (Some "hash")) with Hash. unfold run.
  rewrite (given_cons_0 _ _ Ha). unfold Stream.readEvents. rewrite Hopen.
  by rewrite failure_data, pipeToHash_file.
Qed.

Lemma hash_prints_64_hex_digits_witness :
  exists line,
    console (handleCommand host atHome "hash b.txt")
    = Log line :: showCurrentDir atHome
    /\ String.length line = 64%nat
    /\ Forall (fun c => hexChar c = true) (Str.chars line)
    /\ final (handleCommand host atHome "hash b.txt") = atHome.
Proof.
  apply (hash_prints_64_hex_digits host atHome "hash b.txt" "b.txt" []
           (bytes "abc")); reflexivity.
Defined.

(** ** Examples of the properties above *)

Lemma hash_of_small_file_witness :
  console (handleCommand host atHome "hash /srv/mix/a.txt")
  = [ Log (Sha256.digestHex (bytes "texttext"));
      Log "You are currently in /home/ann";
      Prompt ].
Proof.
  apply (hash_of_small_file host atHome "hash /srv/mix/a.txt"
           "/srv/mix/a.txt" [] (bytes "text")).
  - reflexivity.
  - reflexivity.
  - discriminate.
  - unfold Stream.highWaterMark. simpl. lia.
Defined.

Lemma unreadable_file_crashes_witness :
  console (handleCommand host atHome "cat nothing.txt") = []
  /\ exists e, state (handleCommand host atHome "cat nothing.txt") = Crashed e.
Proof.
  apply (unreadable_file_crashes host atHome "cat nothing.txt" "cat"
           "nothing.txt" [] Fs.ENOENT); [reflexivity|by left|reflexivity].
Defined.

Lemma cd_directory_throws_witness :
  errors (handleCommand host atHome "cd A") = ["Operation failed"]
  /\ final (handleCommand host atHome "cd A") = atHome.
Proof.
  apply (cd_directory_throws host atHome "cd A" "A" [] true); reflexivity.
Defined.

Lemma mv_moves_content_witness :
  errors (handleCommand host atHome "mv b.txt moved.txt") = []
  /\ state (handleCommand host atHome "mv b.txt moved.txt") = AwaitingInput
  /\ Fs.nodes (fs (final (handleCommand host atHome "mv b.txt moved.txt")))
       !! "/home/ann/b.txt" = None
  /\ exists r wr,
       Fs.nodes (fs (final (handleCommand host atHome "mv b.txt moved.txt")))
         !! "/home/ann/moved.txt"
       = Some (Fs.File (bytes "abc") r wr).
Proof.
  apply (mv_moves_content host atHome "mv b.txt moved.txt" "b.txt"
           "moved.txt" [] (bytes "abc")
           (Fs.withNodes disk
              (<["/home/ann/moved.txt" := Fs.File [] true true]>
                 (Fs.nodes disk))));
    [reflexivity|discriminate|reflexivity..].
Defined.

(** ** Canonical paths under [join] and [resolve] *)

Lemma plain_segment s : plain s -> segment s.
Proof. by intros [? _]. Qed.

Lemma split_absolute segs :
  Forall segment segs ->
  Str.split Str.slash (absolute segs)
  = "" :: (if bool_decide (segs = []) then [""] else segs).
Proof.
  intros Hsegs. rewrite absolute_unfold.
  change (String "/" (Str.join "/" segs))
    with ("" +:+ String Str.slash (Str.join "/" segs)).
  rewrite split_app. simpl. f_equal.
  case_bool_decide as Hnil; [by subst|].
  change "/" with (String Str.slash ""). apply split_join; [done|].
  eapply Forall_impl; [done|]. by intros s [_ ?].
Qed.

(** Segments of canonical paths and empty segments normalise to the
    segments that are not empty. *)
Lemma normalizeSegments_plain above acc l :
  Forall (fun s => s = "" \/ plain s) l ->
  Path.normalizeSegments above acc l = rev acc ++ List.filter Str.truthy l.
Proof.
  revert acc. induction l as [|s l IH]; intros acc Hl; simpl.
  - by rewrite app_nil_r.
  - apply Forall_cons in Hl as [Hs Hl]. destruct Hs as [-> | Hs].
    + simpl. by apply IH.
    + destruct Hs as ([Hne _] & Hdot & Hdots).
      rewrite !bool_decide_eq_false_2 by done. simpl.
      rewrite IH by done. simpl. rewrite <- app_assoc.
      by destruct s.
Qed.

Lemma filter_truthy_plain l :
  Forall plain l -> List.filter Str.truthy l = l.
Proof.
  intros Hl. apply List.forallb_filter_id, List.forallb_forall.
  intros s Hs%list_elem_of_In. rewrite Forall_forall in Hl.
  destruct (Hl _ Hs) as ([Hne _] & _). by apply truthy_true.
Qed.

Lemma plain_or_empty l :
  Forall plain l -> Forall (fun s => s = "" \/ plain s) l.
Proof. intros Hl. eapply Forall_impl; [done|]. by right. Qed.

(** [path.resolve] takes a canonical absolute argument as it is. *)
Lemma resolve_absolute cwd cur segs :
  Forall plain segs ->
  Path.resolve cwd cur (absolute segs) = absolute segs.
Proof.
  intros Hsegs. unfold Path.resolve, Path.resolveStep. simpl.
  unfold Path.normalizeString.
  change (absolute segs +:+ "/" +:+ "")
    with (absolute segs +:+ String Str.slash "").
  rewrite split_app, split_absolute
    by (eapply Forall_impl; [done|apply plain_segment]).
  rewrite normalizeSegments_plain.
  - simpl. rewrite List.filter_app. simpl. rewrite app_nil_r.
    case_bool_decide; [by subst|]. by rewrite filter_truthy_plain.
  - constructor; [by left|]. apply Forall_app. split.
    + case_bool_decide; [constructor; [by left|constructor]|].
      by apply plain_or_empty.
    + constructor; [by left|constructor].
Qed.

Lemma key_absolute fs segs :
  Forall plain segs -> Fs.key fs (absolute segs) = absolute segs.
Proof.
  intros Hsegs. unfold Fs.key, Path.resolve, Path.resolveStep. simpl.
  pose proof (resolve_absolute "" "" segs Hsegs) as Hr.
  unfold Path.resolve, Path.resolveStep in Hr. simpl in Hr. exact Hr.
Qed.

Lemma endsWithSlash_segments prefix segs s :
  segment s ->
  Path.endsWithSlash (prefix +:+ Str.join "/" (segs ++ [s])) = false.
Proof.
  intros Hs. destruct (segment_rev s Hs) as [Hne Hno].
  unfold Path.endsWithSlash.
  destruct (chars_join_last "/" segs s) as (l & Hl).
  rewrite chars_app, Hl, app_assoc, rev_app_distr.
  destruct (rev (Str.chars s)) as [|c r]; [done|]. simpl.
  unfold Str.eqc. apply bool_decide_eq_false_2. intros ->.
  apply Hno. by left.
Qed.

(** [path.join] puts a canonical absolute argument below its first
    argument. *)
Lemma join2_absolute cs segs :
  Forall plain cs -> Forall plain segs -> segs <> [] ->
  Path.join2 (absolute cs) (absolute segs) = absolute (cs ++ segs).
Proof.
  intros Hcs Hsegs Hne. unfold Path.join2.
  change (Str.truthy (absolute cs)) with true.
  change (Str.truthy (absolute segs)) with true. cbv iota.
  unfold Path.normalize.
  change (Str.truthy (absolute cs +:+ "/" +:+ absolute segs)) with true.
  change (Path.isAbsolute (absolute cs +:+ "/" +:+ absolute segs)) with true.
  cbv iota. simpl negb. cbv iota.
  assert (Path.normalizeString (absolute cs +:+ "/" +:+ absolute segs) false
          = Str.join "/" (cs ++ segs)) as ->.
  { unfold Path.normalizeString.
    change (absolute cs +:+ "/" +:+ absolute segs)
      with (absolute cs +:+ String Str.slash (absolute segs)).
    rewrite split_app, !split_absolute
      by (eapply Forall_impl; [done|apply plain_segment]).
    rewrite (bool_decide_eq_false_2 (segs = [])) by done.
    rewrite normalizeSegments_plain.
    - simpl. rewrite List.filter_app. simpl.
      rewrite (filter_truthy_plain segs) by done.
      case_bool_decide; [by subst|]. by rewrite filter_truthy_plain.
    - constructor; [by left|]. apply Forall_app. split.
      + case_bool_decide; [constructor; [by left|constructor]|].
        by apply plain_or_empty.
      + constructor; [by left|]. by apply plain_or_empty. }
  assert (Path.endsWithSlash (absolute cs +:+ "/" +:+ absolute segs) = false)
    as ->.
  { destruct segs as [|s init _] using rev_ind; [done|].
    apply Forall_app in Hsegs as [_ Hs]. rewrite Forall_singleton in Hs.
    rewrite (absolute_unfold (init ++ [s])).
    replace (absolute cs +:+ "/" +:+ String "/" (Str.join "/" (init ++ [s])))
      with ((absolute cs +:+ "//") +:+ Str.join "/" (init ++ [s]))
      by (by rewrite append_assoc).
    apply endsWithSlash_segments. by apply plain_segment. }
  rewrite absolute_unfold.
  destruct (Str.join "/" (cs ++ segs)) as [|c n] eqn:Hj; [|done].
  exfalso. destruct cs as [|x cs].
  - destruct segs as [|x segs]; [done|].
    apply Forall_cons in Hsegs as [([Hx _] & _) _].
    by apply (join_nonempty "/" x segs).
  - apply Forall_cons in Hcs as [([Hx _] & _) _].
    by apply (join_nonempty "/" x (cs ++ segs)).
Qed.

(** ** [rn] *)

Lemma leaf_lookup fs k k' n :
  leaf fs k = true -> Fs.nodes fs !! k' = Some n -> Fs.under k k' = false.
Proof.
  unfold leaf. rewrite List.forallb_forall. intros Hleaf Hk'.
  specialize (Hleaf (k', n)). simpl in Hleaf.
  apply negb_true_iff, Hleaf, list_elem_of_In. by apply elem_of_map_to_list.
Qed.

(** Moving a key that has nothing below it to a free key. *)
Lemma moveTree_file old new m n :
  m !! old = Some n -> m !! new = None ->
  (forall k x, m !! k = Some x -> Fs.under old k = false) ->
  Fs.moveTree old new m = <[new := n]> (delete old m).
Proof.
  intros Hold Hnew Hleaf. unfold Fs.moveTree.
  set (f := fun kn : string * Fs.node => (Fs.rekey old new kn.1, kn.2)).
  assert (f <$> map_to_list m
          ≡ₚ (new, n) :: map_to_list (delete old m)) as Hperm.
  { rewrite <- (map_to_list_delete m old n Hold). rewrite fmap_cons.
    unfold f at 1. simpl. unfold Fs.rekey at 1.
    rewrite bool_decide_eq_true_2 by done.
    apply Permutation_cons; [done|].
    assert (f <$> map_to_list (delete old m) = map_to_list (delete old m))
      as ->; [|done].
    rewrite <- (list_fmap_id (map_to_list (delete old m))) at 2.
    apply list_fmap_ext. intros i [k x] Hi.
    apply list_elem_of_lookup_2, elem_of_map_to_list in Hi.
    apply lookup_delete_Some in Hi as [Hne Hk].
    unfold f, Fs.rekey. simpl.
    rewrite bool_decide_eq_false_2 by done.
    by rewrite (Hleaf _ _ Hk). }
  assert (NoDup ((f <$> map_to_list m).*1)) as Hnodup.
  { rewrite Hperm. simpl. constructor.
    - intros ((k & x) & Hk & Hin)%list_elem_of_fmap. simpl in Hk. subst k.
      apply elem_of_map_to_list, lookup_delete_Some in Hin as [_ Hin].
      congruence.
    - apply NoDup_fst_map_to_list. }
  rewrite (list_to_map_proper _ _ Hnodup Hperm). simpl.
  by rewrite list_to_map_to_list.
Qed.

(** X29: [rn] on a file, towards a name that is free in a directory that
    accepts entries: the command succeeds, the new path holds the file with
    its content and its permissions, the old path is gone, and every other
    path is as it was. *)
Theorem rn_renames_file P w input a b rest content r wr :
  parseInput input = (Some "rn", a :: b :: rest) ->
  let oldPath := Path.resolve (Fs.cwd (fs w)) (currentDir w) a in
  let newPath := Path.join2 (Path.dirname oldPath) b in
  let o := handleCommand P w input in
  Fs.stat (fs w) oldPath = inr (Fs.File content r wr) ->
  Fs.stat (fs w) newPath = inl Fs.ENOENT ->
  Path.endsWithSlash newPath = false ->
  Fs.nodes (fs w) !! Path.dirname (Fs.key (fs w) oldPath)
  = Some (Fs.Dir true) ->
  Fs.nodes (fs w) !! Path.dirname (Fs.key (fs w) newPath)
  = Some (Fs.Dir true) ->
  leaf (fs w) (Fs.key (fs w) oldPath) = true ->
  Fs.under (Fs.key (fs w) oldPath) (Fs.key (fs w) newPath) = false ->
  errors o = [] /\ state o = AwaitingInput
  /\ Fs.stat (fs (final o)) newPath = inr (Fs.File content r wr)
  /\ Fs.stat (fs (final o)) oldPath = inl Fs.ENOENT
  /\ forall p,
       Fs.key (fs w) p <> Fs.key (fs w) oldPath ->
       Fs.key (fs w) p <> Fs.key (fs w) newPath ->
       Fs.stat (fs (final o)) p = Fs.stat (fs w) p.
Proof.
  intros Hparse oldPath newPath o Hold Hnew Hslash Hpo Hpn Hleaf Hunder.
  pose proof (parseInput_truthy _ _ _ Hparse) as Hargs.
  apply Forall_cons in Hargs as [Ha Hargs].
  apply Forall_cons in Hargs as [Hb _].
  pose proof (join2_truthy (Path.dirname oldPath) b) as Ht.
  fold newPath in Ht.
  destruct (find_file _ _ _ _ _ Hold) as (Hto & Hnode & Hso).
  assert (Fs.nodes (fs w) !! Fs.key (fs w) newPath = None) as Hfree.
  { unfold Fs.stat, Fs.find in Hnew. rewrite Ht in Hnew. simpl in Hnew.
    destruct (Fs.nodes (fs w) !! Fs.key (fs w) newPath); [|done].
    by destruct (_ && _). }
  set (ko := Fs.key (fs w) oldPath) in *.
  set (kn := Fs.key (fs w) newPath) in *.
  assert (ko <> "/") as Hko.
  { intros Heq. rewrite Heq in Hpo, Hnode.
    change (Path.dirname "/") with "/" in Hpo. congruence. }
  assert (kn <> "/") as Hkn.
  { intros Heq. rewrite Heq in Hpn, Hfree.
    change (Path.dirname "/") with "/" in Hpn. congruence. }
  assert (ko <> kn) as Hne by congruence.
  assert (Fs.rename (fs w) oldPath newPath
          = inr (Fs.withNodes (fs w)
                   (<[kn := Fs.File content r wr]>
                      (delete ko (Fs.nodes (fs w)))))) as Hrename.
  { unfold Fs.rename. unfold Fs.stat in Hold. rewrite Hold, Ht. simpl.
    fold ko kn. rewrite !bool_decide_eq_false_2 by done. simpl.
    rewrite Hunder. unfold Fs.parentWritable. rewrite Hpo, Hpn, Hfree.
    rewrite Hslash. simpl. do 2 f_equal.
    rewrite delete_id by done.
    apply moveTree_file; [done..|].
    intros k x Hk. by apply (leaf_lookup _ _ _ _ Hleaf Hk). }
  subst o. rewrite (handleCommand_unfold _ _ _ _ _ Hparse).
  change (select (Some "rn")) with Rn. unfold run.
  rewrite (given_cons_0 _ _ Ha), (given_cons_1 _ _ _ Hb).
  fold oldPath newPath. rewrite Hrename. simpl. unfold Fs.stat.
  repeat split.
  - apply find_file_at; [done..|]. fold kn. apply lookup_insert_eq.
  - apply find_missing; [done|]. fold ko.
    rewrite lookup_insert_ne by done. apply lookup_delete_eq.
  - intros p Hp1 Hp2. apply find_withNodes.
    rewrite lookup_insert_ne by done. by rewrite lookup_delete_ne.
Qed.

Lemma rn_renames_file_witness :
  Fs.stat (fs (final (handleCommand host atHome "rn b.txt c.txt")))
          "/home/ann/c.txt"
  = inr (Fs.File (bytes "abc") true true)
  /\ Fs.stat (fs (final (handleCommand host atHome "rn b.txt c.txt")))
             "/home/ann/b.txt"
     = inl Fs.ENOENT.
Proof.
  destruct (rn_renames_file host atHome "rn b.txt c.txt" "b.txt" "c.txt" []
              (bytes "abc") true true
              eq_refl eq_refl eq_refl eq_refl eq_refl eq_refl eq_refl eq_refl)
    as (_ & _ & Hnew & Hold & _).
  split; [exact Hnew|exact Hold].
Defined.

(** ** Where [add] puts a file *)

Lemma plain_check s :
  Str.truthy s
  && forallb (fun c => negb (Str.eqc c Str.slash)) (Str.chars s)
  && negb (bool_decide (s = ".")) && negb (bool_decide (s = "..")) = true ->
  plain s.
Proof.
  intros [[Hs Hdot%negb_true_iff]%andb_true_iff Hdots%negb_true_iff]
    %andb_true_iff.
  split; [by apply segment_check|]. split.
  - by apply bool_decide_eq_false in Hdot.
  - by apply bool_decide_eq_false in Hdots.
Qed.

Lemma plain_segments l : Forall plain l -> Forall segment l.
Proof. intros Hl. eapply Forall_impl; [done|apply plain_segment]. Qed.

Lemma dirname_absolute_any init s :
  Forall segment init -> segment s ->
  Path.dirname (absolute (init ++ [s])) = absolute init.
Proof.
  intros Hinit Hs. destruct init as [|x init].
  - simpl. rewrite absolute_unfold. simpl. unfold Path.dirname.
    by rewrite beforeLastSegment_single.
  - by apply dirname_absolute.
Qed.

Lemma endsWithSlash_absolute init s :
  segment s -> Path.endsWithSlash (absolute (init ++ [s])) = false.
Proof. intros Hs. by apply (endsWithSlash_segments "/"). Qed.

Lemma absolute_longer cs segs :
  Forall segment cs -> Forall segment segs -> cs <> [] -> segs <> [] ->
  absolute (cs ++ segs) <> absolute segs.
Proof.
  intros Hcs Hsegs Hne Hne' Heq.
  apply (f_equal (Str.split Str.slash)) in Heq.
  rewrite !split_absolute in Heq by (try apply Forall_app; done).
  rewrite !bool_decide_eq_false_2 in Heq; [|done|by destruct cs].
  injection Heq as Heq. apply (f_equal length) in Heq.
  rewrite length_app in Heq. destruct cs; [done|]. simpl in Heq. lia.
Qed.

Lemma isAbsolute_join x l :
  segment x -> Path.isAbsolute (Str.join "/" (x :: l)) = false.
Proof.
  intros [Hne Hno]. destruct (chars_join_cons "/" x l) as (t & Ht).
  destruct x as [|c x]; [done|].
  destruct (Str.join "/" (String c x :: l)) as [|c' j]; [done|].
  unfold Str.chars in Ht, Hno. simpl in Ht, Hno. injection Ht as -> _.
  simpl. unfold Str.eqc. apply bool_decide_eq_false_2. intros ->.
  apply Hno. by left.
Qed.

Lemma truthy_join x l :
  segment x -> Str.truthy (Str.join "/" (x :: l)) = true.
Proof. intros [Hne _]. by apply truthy_true, join_nonempty. Qed.

Lemma resolve_below cwd cur a :
  Str.truthy a = true -> Path.isAbsolute a = false ->
  Str.truthy cur = true -> Path.isAbsolute cur = true ->
  Path.resolve cwd cur a
  = "/" +:+ Path.normalizeString (cur +:+ "/" +:+ a +:+ "/" +:+ "") false.
Proof.
  intros Ha Hrel Hcur Habs. unfold Path.resolve, Path.resolveStep. simpl.
  rewrite Ha, Hrel. simpl. by rewrite Hcur, Habs.
Qed.

(** A relative name made of entry names is looked up below the current
    directory, by [path.resolve] ... *)
Lemma resolve_relative cwd cs x l :
  Forall plain cs -> Forall plain (x :: l) ->
  Path.resolve cwd (absolute cs) (Str.join "/" (x :: l))
  = absolute (cs ++ x :: l).
Proof.
  intros Hcs Hrs. pose proof Hrs as [Hx _]%Forall_cons.
  apply plain_segment in Hx.
  rewrite resolve_below;
    [|by apply truthy_join|by apply isAbsolute_join|done..].
  unfold Path.normalizeString.
  set (rs := x :: l) in *.
  change (absolute cs +:+ "/" +:+ Str.join "/" rs +:+ "/" +:+ "")
    with (absolute cs
          +:+ String Str.slash (Str.join (String Str.slash "") rs
                                +:+ String Str.slash "")).
  rewrite !split_app, split_absolute, split_join;
    [|done|by eapply Forall_impl; [done|]; intros s [[_ ?] _]
     |by apply plain_segments].
  clearbody rs. rewrite normalizeSegments_plain.
  - simpl. rewrite !List.filter_app. simpl. rewrite app_nil_r.
    rewrite (filter_truthy_plain rs) by done.
    case_bool_decide; [by subst|]. by rewrite filter_truthy_plain.
  - constructor; [by left|]. apply Forall_app. split.
    + case_bool_decide; [constructor; [by left|constructor]|].
      by apply plain_or_empty.
    + apply Forall_app. split; [by apply plain_or_empty|].
      constructor; [by left|constructor].
Qed.

(** ... and by [path.join]. *)
Lemma join2_relative cs init s :
  Forall plain cs -> Forall plain (init ++ [s]) ->
  Path.join2 (absolute cs) (Str.join "/" (init ++ [s]))
  = absolute (cs ++ init ++ [s]).
Proof.
  intros Hcs Hrs.
  assert (exists x l, init ++ [s] = x :: l) as (x & l & Hxl).
  { destruct init; simpl; eauto. }
  pose proof Hrs as Hrs'. rewrite Hxl in Hrs'.
  pose proof Hrs' as [Hx _]%Forall_cons. apply plain_segment in Hx.
  pose proof Hrs as [_ Hs]%Forall_app. rewrite Forall_singleton in Hs.
  apply plain_segment in Hs.
  unfold Path.join2. change (Str.truthy (absolute cs)) with true.
  rewrite Hxl at 1. rewrite (truthy_join x l Hx). cbv iota.
  unfold Path.normalize.
  change (Str.truthy (absolute cs +:+ "/" +:+ Str.join "/" (init ++ [s])))
    with true.
  change (Path.isAbsolute
            (absolute cs +:+ "/" +:+ Str.join "/" (init ++ [s]))) with true.
  simpl negb. cbv iota.
  assert (Path.normalizeString
            (absolute cs +:+ "/" +:+ Str.join "/" (init ++ [s])) false
          = Str.join "/" (cs ++ init ++ [s])) as ->.
  { unfold Path.normalizeString.
    change (absolute cs +:+ "/" +:+ Str.join "/" (init ++ [s]))
      with (absolute cs
            +:+ String Str.slash (Str.join (String Str.slash "")
                                           (init ++ [s]))).
    rewrite split_app, split_absolute, split_join;
      [|by destruct init
       |by eapply Forall_impl; [done|]; intros ? [[_ ?] _]
       |by apply plain_segments].
    rewrite normalizeSegments_plain.
    - simpl. rewrite List.filter_app.
      rewrite (filter_truthy_plain (init ++ [s])) by done.
      case_bool_decide; [by subst|]. by rewrite filter_truthy_plain.
    - constructor; [by left|]. apply Forall_app. split.
      + case_bool_decide; [constructor; [by left|constructor]|].
        by apply plain_or_empty.
      + by apply plain_or_empty. }
  replace (absolute cs +:+ "/" +:+ Str.join "/" (init ++ [s]))
    with ((absolute cs +:+ "/") +:+ Str.join "/" (init ++ [s]))
    by (by rewrite append_assoc).
  rewrite endsWithSlash_segments by done.
  rewrite absolute_unfold.
  destruct (Str.join "/" (cs ++ init ++ [s])) as [|c n] eqn:Hj; [|done].
  exfalso. rewrite Hxl in Hj. destruct cs as [|y cs].
  - by apply (join_nonempty "/" x l); [apply Hx|].
  - apply Forall_cons in Hcs as [([Hy _] & _) _].
    by apply (join_nonempty "/" y (cs ++ x :: l)).
Qed.

(** What [add] does to the world when the path it computes is free. *)
Lemma add_on_free_path P w input a rest :
  parseInput input = (Some "add", a :: rest) ->
  let target := Path.join2 (currentDir w) a in
  let o := handleCommand P w input in
  Path.endsWithSlash target = false ->
  Fs.nodes (fs w) !! Fs.key (fs w) target = None ->
  Fs.nodes (fs w) !! Path.dirname (Fs.key (fs w) target)
  = Some (Fs.Dir true) ->
  errors o = [] /\ state o = AwaitingInput
  /\ console o = [Log ("You are currently in " +:+ currentDir w); Prompt]
  /\ final o
     = World (currentDir w)
         (Fs.withNodes (fs w)
            (<[Fs.key (fs w) target := Fs.File [] true true]>
               (Fs.nodes (fs w)))).
Proof.
  intros Hparse target o Hslash Hfree Hdir.
  pose proof (parseInput_truthy _ _ _ Hparse) as Hargs.
  apply Forall_cons in Hargs as [Ha _].
  pose proof (join2_truthy (currentDir w) a) as Ht. fold target in Ht.
  subst o. rewrite (handleCommand_unfold _ _ _ _ _ Hparse).
  change (select (Some "add")) with Add. unfold run.
  rewrite (given_cons_0 _ _ Ha). fold target.
  unfold Fs.writeFile. rewrite (openWrite_fresh _ _ Ht Hslash Hfree Hdir).
  unfold Fs.append. simpl.
  change (Fs.key (Fs.withNodes (fs w) _) target) with (Fs.key (fs w) target).
  by rewrite alter_insert_eq, withNodes_withNodes.
Qed.

(** X27: [add] joins its argument to the current directory, also when the
    argument starts with a separator: the file is created below the
    current directory, and the path that the argument names by itself is
    left as it was. *)
Theorem add_absolute_argument_goes_below_current_directory
        P w input cs init s rest :
  parseInput input = (Some "add", absolute (init ++ [s]) :: rest) ->
  currentDir w = absolute cs -> cs <> [] ->
  Forall plain cs -> Forall plain (init ++ [s]) ->
  Fs.nodes (fs w) !! absolute (cs ++ init ++ [s]) = None ->
  Fs.nodes (fs w) !! absolute (cs ++ init) = Some (Fs.Dir true) ->
  errors (handleCommand P w input) = []
  /\ Fs.stat (fs (final (handleCommand P w input)))
             (absolute (cs ++ init ++ [s]))
     = inr (Fs.File [] true true)
  /\ Fs.stat (fs (final (handleCommand P w input))) (absolute (init ++ [s]))
     = Fs.stat (fs w) (absolute (init ++ [s])).
Proof.
  intros Hparse Hcur Hne Hcs Hsegs Hfree Hdir.
  assert (Forall plain (cs ++ init ++ [s])) as Hall by by apply Forall_app.
  pose proof Hsegs as [Hinit Hs]%Forall_app. rewrite Forall_singleton in Hs.
  assert (Path.join2 (currentDir w) (absolute (init ++ [s]))
          = absolute (cs ++ init ++ [s])) as Htarget.
  { rewrite Hcur. apply join2_absolute; [done..|]. by destruct init. }
  assert (Path.endsWithSlash (absolute (cs ++ init ++ [s])) = false)
    as Hslash.
  { rewrite app_assoc. by apply endsWithSlash_absolute, plain_segment. }
  assert (Path.dirname (absolute (cs ++ init ++ [s])) = absolute (cs ++ init))
    as Hparent.
  { rewrite app_assoc. apply dirname_absolute_any; [|by apply plain_segment].
    apply plain_segments. by apply Forall_app. }
  destruct (add_on_free_path P w input _ rest Hparse)
    as (Herr & _ & _ & Hfinal).
  - by rewrite Htarget.
  - by rewrite Htarget, key_absolute.
  - by rewrite Htarget, key_absolute, Hparent.
  - rewrite Hfinal, Htarget, key_absolute by done. simpl.
    split; [done|]. unfold Fs.stat. split.
    + apply find_file_at; [done|done|].
      rewrite key_absolute by done. apply lookup_insert_eq.
    + apply find_withNodes. rewrite key_absolute by done.
      apply lookup_insert_ne. apply absolute_longer; try done.
      * by apply plain_segments.
      * by apply plain_segments.
      * by destruct init.
Qed.

Lemma add_absolute_argument_goes_below_current_directory_witness :
  Fs.stat (fs (final (handleCommand host atHome "add /A/x.txt")))
          "/home/ann/A/x.txt"
  = inr (Fs.File [] true true)
  /\ Fs.stat (fs (final (handleCommand host atHome "add /A/x.txt")))
             "/A/x.txt"
     = inl Fs.ENOENT.
Proof.
  apply (add_absolute_argument_goes_below_current_directory
           host atHome "add /A/x.txt" ["home"; "ann"] ["A"] "x.txt" []).
  - reflexivity.
  - reflexivity.
  - discriminate.
  - repeat constructor; by apply plain_check.
  - repeat constructor; by apply plain_check.
  - reflexivity.
  - reflexivity.
Defined.

(** X28: after [add] has created a file under a relative name, [hash] on
    the same name prints the digest of zero bytes: both commands find the
    name below the current directory, and the file is empty and can be
    read. *)
Theorem add_then_hash_prints_empty_digest
        P w input input' cs init s rest rest' :
  parseInput input = (Some "add", Str.join "/" (init ++ [s]) :: rest) ->
  parseInput input' = (Some "hash", Str.join "/" (init ++ [s]) :: rest') ->
  currentDir w = absolute cs ->
  Forall plain cs -> Forall plain (init ++ [s]) ->
  Fs.nodes (fs w) !! absolute (cs ++ init ++ [s]) = None ->
  Fs.nodes (fs w) !! absolute (cs ++ init) = Some (Fs.Dir true) ->
  errors (handleCommand P w input) = []
  /\ console (handleCommand P (final (handleCommand P w input)) input')
     = [ Log "e3b0c44298fc1c149afbf4c8996fb92427ae41e4649b934ca495991b7852b855";
         Log ("You are currently in " +:+ absolute cs);
         Prompt ].
Proof.
  intros Hadd Hhash Hcur Hcs Hsegs Hfree Hdir.
  assert (Forall plain (cs ++ init ++ [s])) as Hall by by apply Forall_app.
  pose proof Hsegs as [Hinit Hs]%Forall_app. rewrite Forall_singleton in Hs.
  assert (Path.join2 (currentDir w) (Str.join "/" (init ++ [s]))
          = absolute (cs ++ init ++ [s])) as Htarget.
  { rewrite Hcur. by apply join2_relative. }
  assert (Path.endsWithSlash (absolute (cs ++ init ++ [s])) = false)
    as Hslash.
  { rewrite app_assoc. by apply endsWithSlash_absolute, plain_segment. }
  assert (Path.dirname (absolute (cs ++ init ++ [s])) = absolute (cs ++ init))
    as Hparent.
  { rewrite app_assoc. apply dirname_absolute_any; [|by apply plain_segment].
    apply plain_segments. by apply Forall_app. }
  destruct (add_on_free_path P w input _ rest Hadd)
    as (Herr & _ & _ & Hfinal).
  - by rewrite Htarget.
  - by rewrite Htarget, key_absolute.
  - by rewrite Htarget, key_absolute, Hparent.
  - split; [done|]. rewrite Htarget, key_absolute in Hfinal by done.
    rewrite (hash_prints P (final (handleCommand P w input)) input'
               (Str.join "/" (init ++ [s])) rest' []); [|done|].
    + rewrite Hfinal, <- digest_of_nothing. cbn [currentDir].
      by rewrite Hcur.
    + rewrite Hfinal. cbn [currentDir fs Fs.cwd Fs.withNodes]. rewrite Hcur.
      assert (Path.resolve (Fs.cwd (fs w)) (absolute cs)
                (Str.join "/" (init ++ [s]))
              = absolute (cs ++ init ++ [s])) as ->.
      { assert (exists x l, init ++ [s] = x :: l) as (x & l & Hxl).
        { destruct init; simpl; eauto. }
        rewrite Hxl in *. by apply resolve_relative. }
      unfold Fs.openRead.
      rewrite (find_file_at _ _ _ [] true true); [done|done|done|].
      rewrite key_absolute by done. apply lookup_insert_eq.
Qed.

Lemma add_then_hash_prints_empty_digest_witness :
  console (handleCommand host
             (final (handleCommand host atHome "add A/new.txt"))
             "hash A/new.txt")
  = [ Log "e3b0c44298fc1c149afbf4c8996fb92427ae41e4649b934ca495991b7852b855";
      Log "You are currently in /home/ann";
      Prompt ].
Proof.
  apply (add_then_hash_prints_empty_digest
           host atHome "add A/new.txt" "hash A/new.txt"
           ["home"; "ann"] ["A"] "new.txt" [] []).
  - reflexivity.
  - reflexivity.
  - reflexivity.
  - repeat constructor; by apply plain_check.
  - repeat constructor; by apply plain_check.
  - reflexivity.
  - reflexivity.
Defined.
